(** * Certification-point / trail-course matching of the TrailMap component

    A shallow embedding of the keyword heuristic of the [TrailMap]
    component (functions [extractCertKeywords], [matchesCertPoint], the
    national-park branch of [fetchTrailData], the course list rendered by
    [NationalParkMap] and [toggleCourse]), followed by the properties the
    specification states about them.

    JavaScript strings are sequences of UTF-16 code units; [length],
    [slice], [includes], [split] and the regular expressions used by the
    component (none carries the [u] flag) all work on code units, so a
    string is modelled as a list of code units. *)

From Stdlib Require Import String Ascii NArith List Bool Lia.
From stdpp Require Import base decidable list gmap.
Import ListNotations.

Local Open Scope N_scope.

(** ** Strings *)

Abbreviation jsstring := (list N).

(** Source literals are written as UTF-8 text and decoded to code units. *)
Module Utf.

Definition bytes (s : string) : list N :=
  List.map N_of_ascii (list_ascii_of_string s).

Fixpoint points (bs : list N) : list N :=
  match bs with
  | [] => []
  | b0 :: r0 =>
    if b0 <? 0x80 then b0 :: points r0
    else match r0 with
    | [] => []
    | b1 :: r1 =>
      if b0 <? 0xE0 then ((b0 mod 0x20) * 0x40 + b1 mod 0x40) :: points r1
      else match r1 with
      | [] => []
      | b2 :: r2 =>
        if b0 <? 0xF0
        then ((b0 mod 0x10) * 0x1000 + (b1 mod 0x40) * 0x40 + b2 mod 0x40)
               :: points r2
        else match r2 with
        | [] => []
        | b3 :: r3 =>
          ((b0 mod 0x08) * 0x40000 + (b1 mod 0x40) * 0x1000
           + (b2 mod 0x40) * 0x40 + b3 mod 0x40) :: points r3
        end
      end
    end
  end.

Definition units (cp : N) : list N :=
  if cp <? 0x10000 then [cp]
  else [0xD800 + (cp - 0x10000) / 0x400; 0xDC00 + (cp - 0x10000) mod 0x400].

Definition js (s : string) : jsstring := List.concat (List.map units (points (bytes s))).

End Utf.

Abbreviation js := Utf.js.

(** [WhiteSpace] and [LineTerminator] of ECMAScript: the class [\s] of
    regular expressions and the characters removed by [trim]. *)
Definition is_ws (c : N) : bool :=
  (c =? 0x09) || (c =? 0x0A) || (c =? 0x0B) || (c =? 0x0C) || (c =? 0x0D)
  || (c =? 0x20) || (c =? 0xA0) || (c =? 0x1680)
  || ((0x2000 <=? c) && (c <=? 0x200A))
  || (c =? 0x2028) || (c =? 0x2029) || (c =? 0x202F) || (c =? 0x205F)
  || (c =? 0x3000) || (c =? 0xFEFF).

(** The character class [[\s,/]] of the split pattern. *)
Definition is_sep (c : N) : bool :=
  is_ws c || (c =? 0x2C) || (c =? 0x2F).

(** The character class [[봉산대]]. *)
Definition is_suffix (c : N) : bool :=
  (c =? 0xBD09) || (c =? 0xC0B0) || (c =? 0xB300).

(** [text.startsWith(kw)] at position 0. *)
Fixpoint startsWith (text kw : jsstring) {struct kw} : bool :=
  match kw with
  | [] => true
  | k :: kw' =>
    match text with
    | [] => false
    | t :: text' => (k =? t) && startsWith text' kw'
    end
  end.

(** [text.includes(kw)]: [kw] occurs at some position of [text]. *)
Fixpoint includes (text kw : jsstring) : bool :=
  startsWith text kw ||
  match text with
  | [] => false
  | _ :: text' => includes text' kw
  end.

(** [text.replace(new RegExp(word, 'g'), rep)] for a non-empty [word] free
    of pattern metacharacters: the occurrences of [word] are replaced from
    left to right, without overlap.  [skip] counts the code units of a
    replaced occurrence that are still to be passed over. *)
Fixpoint replaceFrom (word rep : jsstring) (skip : nat) (text : jsstring)
  : jsstring :=
  match text with
  | [] => []
  | c :: rest =>
    match skip with
    | S k => replaceFrom word rep k rest
    | O =>
      if startsWith text word
      then rep ++ replaceFrom word rep (length word - 1) rest
      else c :: replaceFrom word rep 0 rest
    end
  end.

Definition replaceAll (word rep text : jsstring) : jsstring :=
  replaceFrom word rep 0 text.

(** [text.split(/[\s,/]+/)]: the pieces between maximal runs of separator
    characters; a run at either end yields an empty piece there.  [cur] is
    the piece being read (reversed), [inRun] tells whether the previous
    character was a separator. *)
Fixpoint splitFrom (cur : jsstring) (inRun : bool) (text : jsstring)
  : list jsstring :=
  match text with
  | [] => [rev cur]
  | c :: rest =>
    if is_sep c
    then if inRun then splitFrom [] true rest
         else rev cur :: splitFrom [] true rest
    else splitFrom (c :: cur) false rest
  end.

Definition split (text : jsstring) : list jsstring := splitFrom [] false text.

(** [w.trim()]. *)
Fixpoint trimStart (w : jsstring) : jsstring :=
  match w with
  | [] => []
  | c :: w' => if is_ws c then trimStart w' else w
  end.

Definition trim (w : jsstring) : jsstring :=
  rev (trimStart (rev (trimStart w))).

(** [kw.slice(0, -1)]. *)
Definition slice_0_m1 (kw : jsstring) : jsstring :=
  take (length kw - 1) kw.

(** [/[봉산대]$/.test(kw)]: without the [m] flag [$] is the end of input. *)
Definition endsWithSuffix (kw : jsstring) : bool :=
  match last kw with
  | Some c => is_suffix c
  | None => false
  end.

(** ** Keyword extraction *)

(** [Set.prototype.add] on an insertion-ordered set of strings. *)
Definition setAdd (s : list jsstring) (kw : jsstring) : list jsstring :=
  if decide (kw ∈ s) then s else s ++ [kw].

Definition stopWords : list jsstring := [js "정상석"; js "/"; js "인증"].

Definition summit : jsstring := js "정상".

Definition removeStopWords (certPoint : jsstring) : jsstring :=
  fold_left (fun cleaned word => replaceAll word (js " ") cleaned)
            stopWords certPoint.

Definition baseKeywords (cleaned : jsstring) : list jsstring :=
  List.filter (fun w => (2 <=? length w)%nat) (List.map trim (split cleaned)).

Definition expandStep (expandedKeywords : list jsstring) (kw : jsstring)
  : list jsstring :=
  let added := setAdd expandedKeywords kw in
  if (3 <=? length kw)%nat && endsWithSuffix kw then
    let shortened := slice_0_m1 kw in
    if (2 <=? length shortened)%nat then setAdd added shortened else added
  else added.

Definition expandKeywords (base : list jsstring) : list jsstring :=
  fold_left expandStep base [].

(** [certPoint : string | undefined]; [!certPoint] holds for [undefined]
    and for the empty string. *)
Definition extractCertKeywords (certPoint : option jsstring)
  : list jsstring :=
  match certPoint with
  | None => []
  | Some [] => []
  | Some cp =>
    let keywords := expandKeywords (baseKeywords (removeStopWords cp)) in
    if decide (summit ∈ keywords) then keywords else keywords ++ [summit]
  end.

(** ** Course matching *)

(** [String.prototype.toLowerCase] belongs to the JavaScript runtime, not
    to the component: the definitions below take it as a parameter, and
    the properties proved of them hold whatever function it is. *)
Section Matching.

Variable toLowerCase : jsstring -> jsstring.

Definition matchesCertPoint (courseName detail : jsstring)
    (keywords : list jsstring) : bool :=
  if (length keywords =? 0)%nat then true
  else
    let text := toLowerCase (courseName ++ js " " ++ detail) in
    existsb (fun kw => includes text (toLowerCase kw)) keywords.

(** [matchesCertPoint] with the separator of the template literal made an
    argument, to compare separators. *)
Definition matchesWithSeparator (sep courseName detail : jsstring)
    (keywords : list jsstring) : bool :=
  if (length keywords =? 0)%nat then true
  else
    let text := toLowerCase (courseName ++ sep ++ detail) in
    existsb (fun kw => includes text (toLowerCase kw)) keywords.

(** ** The component *)

(** A feature of the national-park file; only [properties.name] and
    [properties.detail] are read here, each possibly missing. *)
Record Feature := {
  properties_name : option jsstring;
  properties_detail : option jsstring
}.

(** [x || ''] *)
Definition orEmpty (x : option jsstring) : jsstring :=
  match x with
  | Some (c :: s) => c :: s
  | _ => []
  end.

(** [if (certificationPoint)], [certificationPoint && ...] *)
Definition truthy (x : option jsstring) : bool :=
  match x with
  | Some (_ :: _) => true
  | _ => false
  end.

Definition featureMatches (keywords : list jsstring) (feature : Feature)
  : bool :=
  let name := orEmpty (properties_name feature) in
  let detail := orEmpty (properties_detail feature) in
  matchesCertPoint name detail keywords.

(** The [forEach] loop of [fetchTrailData] pushing the indices of the
    matching features, from index [idx] on. *)
Fixpoint matchingIndicesFrom (keywords : list jsstring) (idx : nat)
    (features : list Feature) : list nat :=
  match features with
  | [] => []
  | feature :: rest =>
    if featureMatches keywords feature
    then idx :: matchingIndicesFrom keywords (S idx) rest
    else matchingIndicesFrom keywords (S idx) rest
  end.

Inductive DataSource := national_park | forest_service.

(** The part of the state of [TrailMap] written on the national-park path
    ([trailData] and [error] stay [null] on it). *)

Record TrailMapState := {
  npTrailData : option (list Feature);
  dataSource : option DataSource;
  loading : bool;
  selectedCourses : gset nat
}.

(** [features.map((_, i) => i)] *)
Definition allIndices (features : list Feature) : list nat :=
  seq 0 (length features).

(** The national-park branch of [fetchTrailData], once the file has been
    fetched and parsed: [None] when [features] is empty and the function
    goes on to the next data source. *)
Definition loadNationalPark (certificationPoint : option jsstring)
    (npData : list Feature) (st : TrailMapState) : option TrailMapState :=
  if (0 <? length npData)%nat then
    let keywords := extractCertKeywords certificationPoint in
    let matchingIndices := matchingIndicesFrom keywords 0 npData in
    Some {| npTrailData := Some npData;
            dataSource := Some national_park;
            loading := false;
            selectedCourses :=
              if (0 <? length matchingIndices)%nat
              then list_to_set matchingIndices
              else list_to_set (allIndices npData) |}
  else None.

(** The state update of [toggleCourse]. *)
Definition toggleSet (index : nat) (prev : gset nat) : gset nat :=
  if decide (index ∈ prev) then prev ∖ {[index]} else prev ∪ {[index]}.

Definition toggleCourse (index : nat) (st : TrailMapState) : TrailMapState :=
  {| npTrailData := npTrailData st;
     dataSource := dataSource st;
     loading := loading st;
     selectedCourses := toggleSet index (selectedCourses st) |}.

(** What [NationalParkMap] computes and renders of the course list. *)
Definition courseMatches (certificationPoint : option jsstring)
    (features : list Feature) : list bool :=
  let certKeywords := extractCertKeywords certificationPoint in
  List.map (featureMatches certKeywords) features.

Definition matchingCount (certificationPoint : option jsstring)
    (features : list Feature) : nat :=
  length (List.filter (fun b : bool => b)
                      (courseMatches certificationPoint features)).

(** The indices of the course buttons: [null] is rendered for a course
    when [matchingCount > 0 && !isMatch]. *)
Fixpoint buttonsFrom (count : nat) (idx : nat) (isMatches : list bool)
  : list nat :=
  match isMatches with
  | [] => []
  | isMatch :: rest =>
    if (0 <? count)%nat && negb isMatch
    then buttonsFrom count (S idx) rest
    else idx :: buttonsFrom count (S idx) rest
  end.

Definition courseButtons (certificationPoint : option jsstring)
    (features : list Feature) : list nat :=
  buttonsFrom (matchingCount certificationPoint features) 0
              (courseMatches certificationPoint features).

(** The orange warning paragraph:
    [matchingCount === 0 && certificationPoint && <p>...</p>]. *)
Definition advisoryShown (certificationPoint : option jsstring)
    (features : list Feature) : bool :=
  (matchingCount certificationPoint features =? 0)%nat
  && truthy certificationPoint.

End Matching.

(** An instance of the parameter to run examples: exact on Basic Latin,
    Latin-1 and on scripts without case such as Hangul, which is all the
    examples below contain. *)
Definition lowerUnit (c : N) : N :=
  if ((0x41 <=? c) && (c <=? 0x5A))
     || ((0xC0 <=? c) && (c <=? 0xDE) && negb (c =? 0xD7))
  then c + 0x20 else c.

Definition toLowerCaseLatin (s : jsstring) : jsstring := List.map lowerUnit s.

(** A feature with the given name and no detail, for examples. *)
Definition course (name : string) : Feature :=
  {| properties_name := Some (js name); properties_detail := None |}.

Definition initialState : TrailMapState :=
  {| npTrailData := None; dataSource := None; loading := true;
     selectedCourses := ∅ |}.

(** * Properties *)

(** ** Substring search *)

Lemma startsWith_spec (kw text : jsstring) :
  startsWith text kw = true <-> exists post, text = kw ++ post.
Proof.
  revert text. induction kw as [|k kw IH]; intros text; simpl.
  - split; [intros _; now exists text | reflexivity].
  - destruct text as [|t text].
    + split; [discriminate | intros [post H]; discriminate].
    + rewrite andb_true_iff, N.eqb_eq, IH. split.
      * intros [-> [post ->]]. now exists post.
      * intros [post H]. injection H as -> ->. eauto.
Qed.

(** [includes] decides the occurrence of [kw] as a contiguous part. *)
Lemma includes_spec (kw text : jsstring) :
  includes text kw = true <-> exists pre post, text = pre ++ kw ++ post.
Proof.
  induction text as [|c text IH]; simpl.
  - rewrite orb_false_r, startsWith_spec. split.
    + intros [post H]. now exists [], post.
    + intros [pre [post H]]. destruct pre; [now exists post | discriminate].
  - rewrite orb_true_iff, startsWith_spec, IH. split.
    + intros [[post H] | [pre [post H]]].
      * now exists [], post.
      * exists (c :: pre), post. now rewrite H.
    + intros [pre [post H]]. destruct pre as [|p pre]; simpl in H.
      * left. now exists post.
      * right. injection H as _ H. now exists pre, post.
Qed.

(** ** Keyword sets *)

Lemma setAdd_incl (s : list jsstring) (kw x : jsstring) :
  x ∈ s -> x ∈ setAdd s kw.
Proof.
  unfold setAdd. destruct (decide (kw ∈ s)); [tauto|].
  intros H. apply elem_of_app. now left.
Qed.

Lemma setAdd_here (s : list jsstring) (kw : jsstring) : kw ∈ setAdd s kw.
Proof.
  unfold setAdd. destruct (decide (kw ∈ s)); [assumption|].
  apply elem_of_app. right. apply list_elem_of_singleton. reflexivity.
Qed.

Lemma setAdd_inv (s : list jsstring) (kw x : jsstring) :
  x ∈ setAdd s kw -> x ∈ s \/ x = kw.
Proof.
  unfold setAdd. destruct (decide (kw ∈ s)); [tauto|].
  rewrite elem_of_app, list_elem_of_singleton. tauto.
Qed.

Lemma expandStep_incl (s : list jsstring) (kw x : jsstring) :
  x ∈ s -> x ∈ expandStep s kw.
Proof.
  intros H. unfold expandStep.
  destruct (_ && _); [destruct (_ <=? _)%nat|]; auto using setAdd_incl.
Qed.

Lemma expandStep_here (s : list jsstring) (kw : jsstring) :
  kw ∈ expandStep s kw.
Proof.
  unfold expandStep.
  destruct (_ && _); [destruct (_ <=? _)%nat|];
    auto using setAdd_incl, setAdd_here.
Qed.

Lemma expandStep_shortened (s : list jsstring) (kw : jsstring) :
  (3 <= length kw)%nat -> endsWithSuffix kw = true ->
  (2 <= length (slice_0_m1 kw))%nat ->
  slice_0_m1 kw ∈ expandStep s kw.
Proof.
  intros H3 Hs H2. unfold expandStep.
  apply Nat.leb_le in H3, H2. rewrite H3, Hs, H2. simpl.
  apply setAdd_here.
Qed.

Lemma expandStep_inv (s : list jsstring) (kw x : jsstring) :
  x ∈ expandStep s kw ->
  x ∈ s \/ x = kw \/
  (x = slice_0_m1 kw /\ (3 <= length kw)%nat /\ (2 <= length x)%nat).
Proof.
  unfold expandStep. intros H.
  destruct ((3 <=? length kw)%nat && endsWithSuffix kw) eqn:Hc.
  - apply andb_true_iff in Hc as [H3 _]. apply Nat.leb_le in H3.
    destruct (2 <=? length (slice_0_m1 kw))%nat eqn:H2.
    + apply setAdd_inv in H as [H|H].
      * apply setAdd_inv in H. tauto.
      * subst. apply Nat.leb_le in H2. auto.
    + apply setAdd_inv in H. tauto.
  - apply setAdd_inv in H. tauto.
Qed.

Lemma fold_expand_incl (base s : list jsstring) (x : jsstring) :
  x ∈ s -> x ∈ fold_left expandStep base s.
Proof.
  revert s. induction base as [|kw base IH]; intros s H; simpl; [assumption|].
  apply IH, expandStep_incl, H.
Qed.

Lemma fold_expand_base (base s : list jsstring) (kw : jsstring) :
  kw ∈ base -> kw ∈ fold_left expandStep base s.
Proof.
  revert s. induction base as [|k base IH]; intros s H; simpl.
  - inversion H.
  - apply elem_of_cons in H as [->|H]; [|now apply IH].
    apply fold_expand_incl, expandStep_here.
Qed.

Lemma fold_expand_shortened (base s : list jsstring) (kw : jsstring) :
  kw ∈ base ->
  (3 <= length kw)%nat -> endsWithSuffix kw = true ->
  (2 <= length (slice_0_m1 kw))%nat ->
  slice_0_m1 kw ∈ fold_left expandStep base s.
Proof.
  intros H H3 Hs H2. revert s.
  induction base as [|k base IH]; intros s; simpl.
  - inversion H.
  - apply elem_of_cons in H as [<-|H]; [|now apply IH].
    now apply fold_expand_incl, expandStep_shortened.
Qed.

Lemma fold_expand_inv (base s : list jsstring) (x : jsstring) :
  x ∈ fold_left expandStep base s ->
  x ∈ s \/
  exists kw, kw ∈ base /\
    (x = kw \/
     (x = slice_0_m1 kw /\ (3 <= length kw)%nat /\ (2 <= length x)%nat)).
Proof.
  revert s. induction base as [|k base IH]; intros s; simpl; [auto|].
  intros H. apply IH in H as [H|[kw [Hin H]]].
  - apply expandStep_inv in H as [H|H]; [auto|].
    right. exists k. split; [apply elem_of_cons; auto | exact H].
  - right. exists kw. split; [apply elem_of_cons; auto | exact H].
Qed.

(** A string without white space. *)
Definition clean (w : jsstring) : Prop := Forall (fun c => is_ws c = false) w.

Lemma trimStart_clean (w : jsstring) : clean w -> trimStart w = w.
Proof.
  intros H. destruct H as [|c w Hc Hw]; simpl; [reflexivity|].
  now rewrite Hc.
Qed.

Lemma clean_rev (w : jsstring) : clean w -> clean (rev w).
Proof. unfold clean. rewrite !Forall_forall. intros H c Hc. apply H. rewrite list_elem_of_In in *. now apply in_rev. Qed.

Lemma trim_clean (w : jsstring) : clean w -> trim w = w.
Proof.
  intros H. unfold trim.
  rewrite (trimStart_clean w H), (trimStart_clean _ (clean_rev w H)).
  apply rev_involutive.
Qed.

Lemma clean_take (n : nat) (w : jsstring) : clean w -> clean (take n w).
Proof. apply Forall_take. Qed.

(** The pieces of [split] contain no separator, hence no white space. *)
Lemma splitFrom_clean (text cur : jsstring) (inRun : bool) (tok : jsstring) :
  clean cur -> tok ∈ splitFrom cur inRun text -> clean tok.
Proof.
  revert cur inRun. induction text as [|c text IH]; intros cur inRun Hcur; simpl.
  - intros H. apply list_elem_of_singleton in H as ->. now apply clean_rev.
  - destruct (is_sep c) eqn:Hsep.
    + assert (Hnil : clean []) by constructor.
      destruct inRun.
      * apply IH, Hnil.
      * intros H. apply elem_of_cons in H as [->|H].
        -- now apply clean_rev.
        -- revert H. apply IH, Hnil.
    + apply IH. constructor; [|assumption].
      unfold is_sep in Hsep.
      destruct (is_ws c); [discriminate | reflexivity].
Qed.

Lemma baseKeywords_spec (cleaned kw : jsstring) :
  kw ∈ baseKeywords cleaned -> clean kw /\ (2 <= length kw)%nat.
Proof.
  unfold baseKeywords. rewrite list_elem_of_In, filter_In, in_map_iff.
  intros [[tok [Htrim Htok]] Hlen]. apply Nat.leb_le in Hlen.
  assert (Hc : clean tok).
  { apply (splitFrom_clean cleaned [] false); [constructor|].
    now apply list_elem_of_In. }
  rewrite (trim_clean tok Hc) in Htrim. subst. auto.
Qed.

Lemma summit_spec : clean summit /\ (2 <= length summit)%nat.
Proof. split; [repeat constructor | vm_compute; lia]. Qed.

(** Every extracted keyword is free of white space and at least two code
    units long. *)
Lemma extractCertKeywords_clean (certPoint : option jsstring) (kw : jsstring) :
  kw ∈ extractCertKeywords certPoint -> clean kw /\ (2 <= length kw)%nat.
Proof.
  destruct certPoint as [[|c cp]|]; simpl; try (intros H; inversion H; fail).
  set (base := baseKeywords _).
  assert (Hexp : forall x, x ∈ expandKeywords base ->
                           clean x /\ (2 <= length x)%nat).
  { intros x H. apply fold_expand_inv in H as [H|[k [Hk H]]]; [inversion H|].
    apply baseKeywords_spec in Hk as [Hc Hl].
    destruct H as [->|[-> [_ H2]]]; [auto|].
    split; [now apply clean_take | exact H2]. }
  destruct (decide (summit ∈ expandKeywords base)); [apply Hexp|].
  intros H. apply elem_of_app in H as [H|H]; [now apply Hexp|].
  apply list_elem_of_singleton in H as ->. apply summit_spec.
Qed.

(** ** Properties of keyword extraction *)

(** C5. The extracted keyword set is empty exactly when the label is absent
    or the empty string, and for every non-empty label it contains the
    summit keyword "정상". *)
Theorem extractCertKeywords_empty_iff (certPoint : option jsstring) :
  (extractCertKeywords certPoint = [] <->
   certPoint = None \/ certPoint = Some []) /\
  (forall label, certPoint = Some label -> label <> [] ->
     js "정상" ∈ extractCertKeywords certPoint).
Proof.
  split.
  - destruct certPoint as [[|c cp]|]; simpl; [tauto | | tauto].
    split; [|intros [H|H]; discriminate].
    destruct (decide _) as [Hin|_]; intros H.
    + rewrite H in Hin. inversion Hin.
    + now apply app_eq_nil in H as [_ H].
  - intros label -> Hne. destruct label as [|c cp]; [congruence|]. simpl.
    destruct (decide _) as [Hin|_]; [exact Hin|].
    apply elem_of_app. right. now apply list_elem_of_singleton.
Qed.

Lemma extractCertKeywords_empty_iff_witness :
  js "정상" ∈ extractCertKeywords (Some (js "백록담")).
Proof.
  apply (proj2 (extractCertKeywords_empty_iff (Some (js "백록담")))
               (js "백록담")); [reflexivity | vm_compute; discriminate].
Defined.

(** C6. A base keyword of length at least 3 that ends in one of 봉, 산, 대
    is in the extracted set together with its variant without that last
    character (whose length is at least 2); the label "노인봉" yields a set
    containing "노인봉" and "노인". *)
Theorem suffix_stripping :
  (forall (label kw : jsstring),
     kw ∈ baseKeywords (removeStopWords label) ->
     (3 <= length kw)%nat -> endsWithSuffix kw = true ->
     (2 <= length (slice_0_m1 kw))%nat ->
     kw ∈ extractCertKeywords (Some label) /\
     slice_0_m1 kw ∈ extractCertKeywords (Some label)) /\
  (js "노인봉" ∈ extractCertKeywords (Some (js "노인봉")) /\
   js "노인" ∈ extractCertKeywords (Some (js "노인봉"))).
Proof.
  split.
  - intros label kw Hin H3 Hs H2.
    destruct label as [|c cp]; [vm_compute in Hin; inversion Hin|].
    assert (Hk : kw ∈ expandKeywords (baseKeywords (removeStopWords (c :: cp))))
      by now apply fold_expand_base.
    assert (Hsh : slice_0_m1 kw
                    ∈ expandKeywords (baseKeywords (removeStopWords (c :: cp))))
      by now apply fold_expand_shortened.
    unfold extractCertKeywords.
    destruct (decide _); [auto|]. split; apply elem_of_app; auto.
  - split; apply (bool_decide_unpack _); vm_compute; exact I.
Qed.

Lemma suffix_stripping_witness :
  js "천왕봉" ∈ extractCertKeywords (Some (js "지리산 천왕봉")) /\
  js "천왕" ∈ extractCertKeywords (Some (js "지리산 천왕봉")).
Proof.
  apply (proj1 suffix_stripping (js "지리산 천왕봉") (js "천왕봉")).
  - apply (bool_decide_unpack _); vm_compute; exact I.
  - vm_compute; lia.
  - reflexivity.
  - vm_compute; lia.
Defined.

(** C7. Whatever the label (absent and empty included), the function
    returns a list, and every keyword in it is non-empty, has length at
    least 2 and is equal to its own trimmed form. *)
Theorem extractCertKeywords_result (certPoint : option jsstring)
    (kw : jsstring) :
  kw ∈ extractCertKeywords certPoint ->
  kw <> [] /\ (2 <= length kw)%nat /\ trim kw = kw.
Proof.
  intros H. apply extractCertKeywords_clean in H as [Hc Hl].
  repeat split; [|exact Hl|now apply trim_clean].
  intros ->. simpl in Hl. lia.
Qed.

Lemma extractCertKeywords_result_witness :
  js "서석" <> [] /\ (2 <= length (js "서석"))%nat /\ trim (js "서석") = js "서석".
Proof.
  apply (extractCertKeywords_result
           (Some (js "서석대 정상석/ 인왕봉 정상석")) (js "서석")).
  apply (bool_decide_unpack _); vm_compute; exact I.
Defined.

(** ** Properties of course matching *)

(** C2. When the keyword set is empty every course matches, whatever its
    name and detail (empty strings included). *)
Theorem matchesCertPoint_fail_open (toLowerCase : jsstring -> jsstring)
    (courseName detail : jsstring) (keywords : list jsstring) :
  length keywords = 0%nat ->
  matchesCertPoint toLowerCase courseName detail keywords = true.
Proof.
  intros Hempty. unfold matchesCertPoint.
  rewrite Hempty. reflexivity.
Qed.

Lemma matchesCertPoint_fail_open_witness :
  matchesCertPoint toLowerCaseLatin [] [] (extractCertKeywords None) = true.
Proof.
  apply (matchesCertPoint_fail_open toLowerCaseLatin [] []
           (extractCertKeywords None)).
  reflexivity.
Defined.

Lemma matches_exists (toLowerCase : jsstring -> jsstring)
    (sep courseName detail : jsstring) (keywords : list jsstring) :
  keywords <> [] ->
  (matchesWithSeparator toLowerCase sep courseName detail keywords = true <->
   exists kw, kw ∈ keywords /\
     includes (toLowerCase (courseName ++ sep ++ detail)) (toLowerCase kw)
     = true).
Proof.
  intros Hne. unfold matchesWithSeparator.
  destruct keywords as [|k keywords]; [congruence|].
  cbn [length Nat.eqb]. rewrite existsb_exists.
  split; intros [kw [Hin H]]; exists kw; split; auto;
    now apply list_elem_of_In.
Qed.

Lemma matchesCertPoint_separator (toLowerCase : jsstring -> jsstring)
    (courseName detail : jsstring) (keywords : list jsstring) :
  matchesCertPoint toLowerCase courseName detail keywords
  = matchesWithSeparator toLowerCase (js " ") courseName detail keywords.
Proof. reflexivity. Qed.

(** C3. For a non-empty keyword set, a course matches exactly when the
    lower-cased form of some keyword occurs as a contiguous part of the
    lower-cased text made of the course name, a space and the detail; the
    course "둘레길" / "단순 순환로" does not match the keywords "천왕봉",
    "천왕". *)
Theorem matchesCertPoint_iff :
  (forall (toLowerCase : jsstring -> jsstring) (courseName detail : jsstring)
          (keywords : list jsstring),
     keywords <> [] ->
     (matchesCertPoint toLowerCase courseName detail keywords = true <->
      exists kw pre post,
        kw ∈ keywords /\
        toLowerCase (courseName ++ js " " ++ detail)
        = pre ++ toLowerCase kw ++ post)) /\
  matchesCertPoint toLowerCaseLatin (js "둘레길") (js "단순 순환로")
                   [js "천왕봉"; js "천왕"] = false.
Proof.
  split; [|vm_compute; reflexivity].
  intros toLowerCase courseName detail keywords Hne.
  rewrite matchesCertPoint_separator, (matches_exists _ _ _ _ _ Hne).
  split.
  - intros [kw [Hin H]]. apply includes_spec in H as [pre [post H]].
    now exists kw, pre, post.
  - intros [kw [pre [post [Hin H]]]]. exists kw. split; [exact Hin|].
    apply includes_spec. now exists pre, post.
Qed.

Lemma matchesCertPoint_iff_witness :
  matchesCertPoint toLowerCaseLatin (js "천왕봉 코스") (js "지리산 정상 등반로")
                   [js "천왕봉"; js "천왕"; js "정상"] = true.
Proof.
  apply (proj1 matchesCertPoint_iff toLowerCaseLatin (js "천왕봉 코스")
               (js "지리산 정상 등반로") [js "천왕봉"; js "천왕"; js "정상"]).
  - discriminate.
  - exists (js "정상"), (js "천왕봉 코스 지리산 "), (js " 등반로").
    split; [apply (bool_decide_unpack _); vm_compute; exact I | reflexivity].
Defined.

(** ** Toggling a course *)

Lemma elem_of_toggleSet (index : nat) (prev : gset nat) (j : nat) :
  j ∈ toggleSet index prev <->
  (j <> index /\ j ∈ prev) \/ (j = index /\ index ∉ prev).
Proof.
  unfold toggleSet. destruct (decide (index ∈ prev)) as [Hin|Hout].
  - rewrite elem_of_difference, elem_of_singleton. split.
    + intros [H1 H2]. left. auto.
    + intros [[H1 H2]|[_ H2]]; [auto | contradiction].
  - rewrite elem_of_union, elem_of_singleton. split.
    + intros [H| ->]; [left | right; auto].
      split; [intros ->; contradiction | exact H].
    + intros [[_ H]|[H _]]; auto.
Qed.

(** C10. [toggleCourse index] flips the membership of [index] in the
    selection, leaves the membership of every other index as it was, and
    applied twice gives the selection back. *)
Theorem toggleCourse_frame_involution (index : nat) (st : TrailMapState) :
  (forall j, j <> index ->
     (j ∈ selectedCourses (toggleCourse index st) <-> j ∈ selectedCourses st)) /\
  (index ∈ selectedCourses (toggleCourse index st) <->
   index ∉ selectedCourses st) /\
  toggleCourse index (toggleCourse index st) = st.
Proof.
  destruct st as [np ds ld sel]. unfold toggleCourse. simpl.
  split; [|split].
  - intros j Hj. rewrite elem_of_toggleSet. tauto.
  - rewrite elem_of_toggleSet. tauto.
  - f_equal. apply set_eq. intros x. rewrite !elem_of_toggleSet.
    destruct (decide (x = index)) as [->|Hne];
      destruct (decide (index ∈ sel)); tauto.
Qed.

Lemma toggleCourse_frame_involution_witness :
  2%nat ∈ selectedCourses
    (toggleCourse 1 {| npTrailData := None; dataSource := None;
                       loading := false; selectedCourses := {[1%nat; 2%nat]} |})
  <-> 2%nat ∈ ({[1%nat; 2%nat]} : gset nat).
Proof.
  apply (proj1 (toggleCourse_frame_involution 1
           {| npTrailData := None; dataSource := None;
              loading := false; selectedCourses := {[1%nat; 2%nat]} |}) 2%nat
           ltac:(lia)).
Defined.

(** ** Selection policy *)

Section Selection.

Variable toLowerCase : jsstring -> jsstring.

(** The course at position [idx] matches the keywords of the label. *)
Definition matchesAt (certificationPoint : option jsstring)
    (features : list Feature) (idx : nat) : Prop :=
  exists feature,
    features !! idx = Some feature /\
    featureMatches toLowerCase (extractCertKeywords certificationPoint) feature
    = true.

Lemma matchingIndicesFrom_spec (keywords : list jsstring)
    (features : list Feature) (start idx : nat) :
  idx ∈ matchingIndicesFrom toLowerCase keywords start features <->
  exists i feature,
    idx = (start + i)%nat /\ features !! i = Some feature /\
    featureMatches toLowerCase keywords feature = true.
Proof.
  revert start. induction features as [|f features IH]; intros start; simpl.
  - split; [intros H; inversion H | intros [i [g [_ [H _]]]]; discriminate].
  - assert (Htail : idx ∈ matchingIndicesFrom toLowerCase keywords (S start) features
                    <-> exists i feature, idx = (start + S i)%nat /\
                          features !! i = Some feature /\
                          featureMatches toLowerCase keywords feature = true).
    { rewrite IH. split; intros [i [g [H1 H2]]]; exists i, g;
        (split; [lia | exact H2]). }
    destruct (featureMatches toLowerCase keywords f) eqn:Hf.
    + rewrite elem_of_cons, Htail. split.
      * intros [->|[i [g [H1 H2]]]].
        -- exists 0%nat, f. repeat split; [lia | exact Hf].
        -- exists (S i), g. auto.
      * intros [[|i] [g [H1 [H2 H3]]]].
        -- left. lia.
        -- right. exists i, g. auto.
    + rewrite Htail. split.
      * intros [i [g [H1 H2]]]. exists (S i), g. auto.
      * intros [[|i] [g [H1 [H2 H3]]]].
        -- simpl in H2. injection H2 as <-. congruence.
        -- exists i, g. auto.
Qed.

Lemma buttonsFrom_spec (count : nat) (isMatches : list bool)
    (start idx : nat) :
  idx ∈ buttonsFrom count start isMatches <->
  exists i isMatch,
    idx = (start + i)%nat /\ isMatches !! i = Some isMatch /\
    (0 <? count)%nat && negb isMatch = false.
Proof.
  revert start. induction isMatches as [|b bs IH]; intros start; simpl.
  - split; [intros H; inversion H | intros [i [g [_ [H _]]]]; discriminate].
  - assert (Htail : idx ∈ buttonsFrom count (S start) bs
                    <-> exists i isMatch, idx = (start + S i)%nat /\
                          bs !! i = Some isMatch /\
                          (0 <? count)%nat && negb isMatch = false).
    { rewrite IH. split; intros [i [g [H1 H2]]]; exists i, g;
        (split; [lia | exact H2]). }
    destruct ((0 <? count)%nat && negb b) eqn:Hb.
    + rewrite Htail. split.
      * intros [i [g [H1 H2]]]. exists (S i), g. auto.
      * intros [[|i] [g [H1 [H2 H3]]]].
        -- simpl in H2. injection H2 as <-. congruence.
        -- exists i, g. auto.
    + rewrite elem_of_cons, Htail. split.
      * intros [->|[i [g [H1 H2]]]].
        -- exists 0%nat, b. repeat split; [lia | exact Hb].
        -- exists (S i), g. auto.
      * intros [[|i] [g [H1 [H2 H3]]]].
        -- left. lia.
        -- right. exists i, g. auto.
Qed.

Lemma courseMatches_lookup (certificationPoint : option jsstring)
    (features : list Feature) (i : nat) (isMatch : bool) :
  courseMatches toLowerCase certificationPoint features !! i = Some isMatch <->
  exists feature,
    features !! i = Some feature /\
    isMatch = featureMatches toLowerCase
                (extractCertKeywords certificationPoint) feature.
Proof.
  unfold courseMatches. revert i.
  induction features as [|f features IH]; intros i; simpl.
  - split; [discriminate | intros [g [H _]]; discriminate].
  - destruct i as [|i]; simpl; [|apply IH].
    split.
    + intros H. injection H as <-. now exists f.
    + intros [g [H ->]]. now injection H as ->.
Qed.

(** [matchingCount] is positive exactly when some course matches. *)
Lemma matchingCount_pos (certificationPoint : option jsstring)
    (features : list Feature) :
  (0 < matchingCount toLowerCase certificationPoint features)%nat <->
  exists idx, matchesAt certificationPoint features idx.
Proof.
  unfold matchingCount, courseMatches, matchesAt.
  induction features as [|f features IH]; simpl.
  - split; [lia | intros [idx [g [H _]]]; discriminate].
  - destruct (featureMatches toLowerCase _ f) eqn:Hf; simpl.
    + split; [intros _ | lia]. exists 0%nat, f. auto.
    + rewrite IH. split.
      * intros [idx H]. now exists (S idx).
      * intros [[|idx] [g [H1 H2]]]; [|now exists idx, g].
        simpl in H1. injection H1 as <-. congruence.
Qed.

Lemma matchingIndices_pos (certificationPoint : option jsstring)
    (features : list Feature) :
  (0 < length (matchingIndicesFrom toLowerCase
                 (extractCertKeywords certificationPoint) 0 features))%nat <->
  exists idx, matchesAt certificationPoint features idx.
Proof.
  split.
  - intros H.
    destruct (matchingIndicesFrom _ _ _ _) as [|idx l] eqn:E;
      [simpl in H; lia|].
    assert (Hin : idx ∈ matchingIndicesFrom toLowerCase
                    (extractCertKeywords certificationPoint) 0 features)
      by (rewrite E; apply elem_of_cons; auto).
    apply matchingIndicesFrom_spec in Hin as [i [g [-> H2]]].
    now exists i, g.
  - intros [idx [g H]].
    assert (Hin : idx ∈ matchingIndicesFrom toLowerCase
                    (extractCertKeywords certificationPoint) 0 features)
      by (apply matchingIndicesFrom_spec; now exists idx, g).
    destruct (matchingIndicesFrom _ _ _ _); [inversion Hin | simpl; lia].
Qed.

(** C1. For a non-empty course list the national-park branch succeeds;
    when some course matches the keywords of the label, the selection it
    sets holds exactly the indices of the matching courses and the course
    list shows a button for exactly those; when no course matches, the
    selection holds every index of the list. *)
Theorem default_selection (certificationPoint : option jsstring)
    (npData : list Feature) (st : TrailMapState) :
  npData <> [] ->
  exists st',
    loadNationalPark toLowerCase certificationPoint npData st = Some st' /\
    ((exists idx, matchesAt certificationPoint npData idx) ->
       (forall idx, idx ∈ selectedCourses st' <->
                    matchesAt certificationPoint npData idx) /\
       (forall idx, idx ∈ courseButtons toLowerCase certificationPoint npData <->
                    matchesAt certificationPoint npData idx)) /\
    (~ (exists idx, matchesAt certificationPoint npData idx) ->
       forall idx, idx ∈ selectedCourses st' <-> (idx < length npData)%nat).
Proof.
  intros Hne. unfold loadNationalPark.
  assert (Hlen : (0 <? length npData)%nat = true).
  { apply Nat.ltb_lt. destruct npData; [congruence | simpl; lia]. }
  rewrite Hlen. eexists. split; [reflexivity|]. cbn [selectedCourses].
  pose proof (matchingIndices_pos certificationPoint npData) as Hpos.
  split.
  - intros Hex. apply Hpos in Hex as Hlt. apply Nat.ltb_lt in Hlt.
    rewrite Hlt. split; intros idx.
    + rewrite elem_of_list_to_set, matchingIndicesFrom_spec.
      unfold matchesAt. split.
      * intros [i [g [-> H]]]. now exists g.
      * intros [g H]. now exists idx, g.
    + unfold courseButtons. rewrite buttonsFrom_spec.
      apply matchingCount_pos in Hex. apply Nat.ltb_lt in Hex. rewrite Hex.
      unfold matchesAt. split.
      * intros [i [b [-> [Hb Hc]]]].
        apply courseMatches_lookup in Hb as [g [Hg ->]].
        exists g. split; [exact Hg|]. simpl in Hc.
        now apply negb_false_iff in Hc.
      * intros [g [Hg Hm]]. exists idx, true. repeat split.
        apply courseMatches_lookup. exists g. auto.
  - intros Hno.
    destruct (0 <? length (matchingIndicesFrom toLowerCase
                (extractCertKeywords certificationPoint) 0 npData))%nat eqn:Hlt.
    + apply Nat.ltb_lt in Hlt. apply Hpos in Hlt. contradiction.
    + intros idx. unfold allIndices.
      rewrite elem_of_list_to_set, elem_of_seq. lia.
Qed.

(** C4. For a non-empty course list the warning is shown exactly when
    [matchingCount] is zero, that is when no course of the list matches
    the keywords of the label. *)
Theorem advisory_iff_zero_matches (certificationPoint : option jsstring)
    (features : list Feature) :
  features <> [] ->
  (advisoryShown toLowerCase certificationPoint features = true <->
   matchingCount toLowerCase certificationPoint features = 0%nat) /\
  (matchingCount toLowerCase certificationPoint features = 0%nat <->
   ~ exists idx, matchesAt certificationPoint features idx).
Proof.
  intros Hne.
  pose proof (matchingCount_pos certificationPoint features) as Hpos.
  split.
  - unfold advisoryShown. rewrite andb_true_iff, Nat.eqb_eq.
    split; [tauto|]. intros H0. split; [exact H0|].
    destruct (truthy certificationPoint) eqn:Ht; [reflexivity|].
    assert (Hk : extractCertKeywords certificationPoint = []).
    { destruct certificationPoint as [[|c cp]|]; [reflexivity | discriminate | reflexivity]. }
    destruct features as [|f features]; [congruence|].
    assert (Hex : exists idx, matchesAt certificationPoint (f :: features) idx).
    { exists 0%nat, f. split; [reflexivity|]. now rewrite Hk. }
    apply Hpos in Hex. lia.
  - split.
    + intros H0 Hex. apply Hpos in Hex. lia.
    + intros Hno.
      destruct (matchingCount toLowerCase certificationPoint features) eqn:E;
        [reflexivity|].
      exfalso. apply Hno, Hpos. lia.
Qed.

End Selection.

Lemma default_selection_witness :
  exists st',
    loadNationalPark toLowerCaseLatin (Some (js "서석대 정상석/ 인왕봉 정상석"))
      [course "서석대코스"; course "인왕봉코스"; course "기타코스"]
      initialState = Some st' /\
    selectedCourses st' = {[0%nat; 1%nat]}.
Proof.
  destruct (default_selection toLowerCaseLatin
              (Some (js "서석대 정상석/ 인왕봉 정상석"))
              [course "서석대코스"; course "인왕봉코스"; course "기타코스"]
              initialState ltac:(discriminate)) as [st' [Hload _]].
  exists st'. split; [exact Hload|].
  vm_compute in Hload. injection Hload as <-. reflexivity.
Defined.

Lemma advisory_iff_zero_matches_witness :
  advisoryShown toLowerCaseLatin (Some (js "미상봉"))
    [course "서석대코스"; course "인왕봉코스"; course "기타코스"] = true.
Proof.
  apply (proj1 (advisory_iff_zero_matches toLowerCaseLatin (Some (js "미상봉"))
           [course "서석대코스"; course "인왕봉코스"; course "기타코스"]
           ltac:(discriminate))).
  vm_compute. reflexivity.
Defined.

(** ** The separator between name and detail *)

Lemma includes_nil (text : jsstring) : includes text [] = true.
Proof. destruct text; reflexivity. Qed.

Lemma ws_not_clean (k s : N) : is_ws k = false -> is_ws s = true -> (k =? s) = false.
Proof. intros Hk Hs. apply N.eqb_neq. intros ->. congruence. Qed.

(** A keyword without white space cannot begin inside, or run across, a
    non-empty white-space separator. *)
Lemma startsWith_across (kw a sep b : jsstring) :
  sep <> [] -> forallb is_ws sep = true -> clean kw ->
  startsWith (a ++ sep ++ b) kw = startsWith a kw.
Proof.
  intros Hne Hsep Hkw. revert a.
  induction Hkw as [|k kw Hk Hkw IH]; intros a; [reflexivity|].
  destruct a as [|x a]; simpl.
  - destruct sep as [|s sep]; [congruence|]. simpl in *.
    apply andb_true_iff in Hsep as [Hs _].
    now rewrite (ws_not_clean k s Hk Hs).
  - now rewrite IH.
Qed.

Lemma includes_skip (kw sep b : jsstring) :
  forallb is_ws sep = true -> clean kw ->
  includes (sep ++ b) kw = includes b kw.
Proof.
  intros Hsep Hkw. destruct Hkw as [|k kw Hk Hkw]; [now rewrite !includes_nil|].
  induction sep as [|s sep IH]; [reflexivity|].
  simpl in Hsep. apply andb_true_iff in Hsep as [Hs Hsep].
  cbn [app includes startsWith].
  rewrite (ws_not_clean k s Hk Hs). simpl. apply IH, Hsep.
Qed.

Lemma includes_across (kw a sep b : jsstring) :
  sep <> [] -> forallb is_ws sep = true -> clean kw ->
  includes (a ++ sep ++ b) kw = includes a kw || includes b kw.
Proof.
  intros Hne Hsep Hkw. induction a as [|x a IH].
  - cbn [app]. rewrite includes_skip by assumption.
    destruct kw; [now rewrite !includes_nil | reflexivity].
  - change ((x :: a) ++ sep ++ b) with (x :: (a ++ sep ++ b)).
    cbn [includes]. rewrite IH.
    change (x :: (a ++ sep ++ b)) with ((x :: a) ++ sep ++ b).
    rewrite startsWith_across by assumption. apply orb_assoc.
Qed.

Lemma clean_forallb (w : jsstring) :
  forallb (fun c => negb (is_ws c)) w = true -> clean w.
Proof.
  unfold clean. rewrite forallb_forall, Forall_forall.
  intros H c Hc. apply negb_true_iff, H. now apply list_elem_of_In.
Qed.

(** C9, as the code has it.  The separator is a single space, and it
    matters (a keyword may match across an empty or a non-white
    separator); the result is the same for every other non-empty
    white-space separator, when no lower-cased keyword contains white space
    and lower-casing acts on the name and on the detail separately, keeping
    the separator. *)
Theorem separator_whitespace (toLowerCase : jsstring -> jsstring)
    (sep courseName detail : jsstring) (keywords : list jsstring) :
  sep <> [] -> forallb is_ws sep = true ->
  forallb (fun kw => forallb (fun c => negb (is_ws c)) (toLowerCase kw))
          keywords = true ->
  toLowerCase (courseName ++ js " " ++ detail)
  = toLowerCase courseName ++ js " " ++ toLowerCase detail ->
  toLowerCase (courseName ++ sep ++ detail)
  = toLowerCase courseName ++ sep ++ toLowerCase detail ->
  matchesWithSeparator toLowerCase sep courseName detail keywords
  = matchesCertPoint toLowerCase courseName detail keywords.
Proof.
  intros Hne Hsep Hkws Hspace Hlow.
  unfold matchesWithSeparator, matchesCertPoint.
  destruct (length keywords =? 0)%nat; [reflexivity|].
  rewrite Hspace, Hlow. cbv zeta.
  induction keywords as [|kw keywords IH]; [reflexivity|].
  simpl in Hkws. apply andb_true_iff in Hkws as [Hkw Hkws].
  apply clean_forallb in Hkw.
  cbn [existsb]. rewrite (IH Hkws).
  rewrite !includes_across by (try assumption; try discriminate; reflexivity).
  reflexivity.
Qed.

Lemma separator_whitespace_witness :
  matchesWithSeparator toLowerCaseLatin (js "  ") (js "천왕봉 코스")
    (js "지리산 정상 등반로") (extractCertKeywords (Some (js "지리산 천왕봉")))
  = matchesCertPoint toLowerCaseLatin (js "천왕봉 코스")
    (js "지리산 정상 등반로") (extractCertKeywords (Some (js "지리산 천왕봉"))).
Proof.
  apply (separator_whitespace toLowerCaseLatin (js "  ") (js "천왕봉 코스")
           (js "지리산 정상 등반로")
           (extractCertKeywords (Some (js "지리산 천왕봉")))).
  - vm_compute. discriminate.
  - vm_compute. reflexivity.
  - vm_compute. reflexivity.
  - vm_compute. reflexivity.
  - vm_compute. reflexivity.
Defined.

(** The separator is not immaterial: with the empty separator, or with
    "-", courses match that do not match with the space of the code. *)
Lemma separator_matters :
  (matchesWithSeparator toLowerCaseLatin [] (js "백록") (js "담")
     (extractCertKeywords (Some (js "백록담"))) = true /\
   matchesCertPoint toLowerCaseLatin (js "백록") (js "담")
     (extractCertKeywords (Some (js "백록담"))) = false) /\
  (matchesWithSeparator toLowerCaseLatin (js "-") (js "a") (js "B")
     (extractCertKeywords (Some (js "A-b"))) = true /\
   matchesCertPoint toLowerCaseLatin (js "a") (js "B")
     (extractCertKeywords (Some (js "A-b"))) = false).
Proof. vm_compute. repeat split. Qed.

(** ** Examples *)

Example keywords_jirisan :
  extractCertKeywords (Some (js "지리산 천왕봉"))
  = [js "지리산"; js "지리"; js "천왕봉"; js "천왕"; js "정상"].
Proof. vm_compute. reflexivity. Qed.

Example keywords_mudeungsan :
  extractCertKeywords (Some (js "서석대 정상석/ 인왕봉 정상석"))
  = [js "서석대"; js "서석"; js "인왕봉"; js "인왕"; js "정상"].
Proof. vm_compute. reflexivity. Qed.

Example keywords_blank : extractCertKeywords (Some (js " ")) = [js "정상"].
Proof. vm_compute. reflexivity. Qed.

Example keywords_absent :
  extractCertKeywords None = [] /\ extractCertKeywords (Some []) = [].
Proof. split; reflexivity. Qed.

Example split_runs : split (js " a,b/ c ") = [ []; js "a"; js "b"; js "c"; [] ].
Proof. vm_compute. reflexivity. Qed.

Example buttons_mudeungsan :
  courseButtons toLowerCaseLatin (Some (js "서석대 정상석/ 인왕봉 정상석"))
    [course "서석대코스"; course "인왕봉코스"; course "기타코스"]
  = [0%nat; 1%nat]
  /\ advisoryShown toLowerCaseLatin (Some (js "서석대 정상석/ 인왕봉 정상석"))
       [course "서석대코스"; course "인왕봉코스"; course "기타코스"]
     = false.
Proof. vm_compute. split; reflexivity. Qed.

(** * Further properties of the code *)

(** ** The extracted keywords *)

(** [kw] occurs in [text] as a contiguous part. *)
Definition occurs (kw text : jsstring) : Prop :=
  exists pre post, text = pre ++ kw ++ post.

(** A string without separator character of the split pattern. *)
Definition sepFree (w : jsstring) : Prop :=
  Forall (fun c => is_sep c = false) w.

Lemma setAdd_NoDup (s : list jsstring) (kw : jsstring) :
  NoDup s -> NoDup (setAdd s kw).
Proof.
  intros H. unfold setAdd. destruct (decide (kw ∈ s)) as [Hin|Hout]; [exact H|].
  apply NoDup_app. split; [exact H|]. split; [|apply NoDup_singleton].
  intros x Hx Hk. apply list_elem_of_singleton in Hk as ->. contradiction.
Qed.

Lemma expandStep_NoDup (s : list jsstring) (kw : jsstring) :
  NoDup s -> NoDup (expandStep s kw).
Proof.
  intros H. unfold expandStep.
  destruct (_ && _); [destruct (_ <=? _)%nat|]; auto using setAdd_NoDup.
Qed.

Lemma fold_expand_NoDup (base s : list jsstring) :
  NoDup s -> NoDup (fold_left expandStep base s).
Proof.
  revert s. induction base as [|kw base IH]; intros s H; simpl; [exact H|].
  apply IH, expandStep_NoDup, H.
Qed.

(** X1. The keyword list never holds the same keyword twice. *)
Theorem extractCertKeywords_NoDup (certPoint : option jsstring) :
  NoDup (extractCertKeywords certPoint).
Proof.
  destruct certPoint as [[|c cp]|]; simpl; try apply NoDup_nil_2.
  set (keywords := expandKeywords _).
  assert (Hk : NoDup keywords) by apply fold_expand_NoDup, NoDup_nil_2.
  destruct (decide (summit ∈ keywords)) as [Hin|Hout]; [exact Hk|].
  apply NoDup_app. split; [exact Hk|]. split; [|apply NoDup_singleton].
  intros x Hx Hs. apply list_elem_of_singleton in Hs as ->. contradiction.
Qed.

Lemma sepFree_rev (w : jsstring) : sepFree w -> sepFree (rev w).
Proof.
  unfold sepFree. rewrite !Forall_forall. intros H c Hc. apply H.
  rewrite list_elem_of_In in *. now apply in_rev.
Qed.

Lemma sepFree_clean (w : jsstring) : sepFree w -> clean w.
Proof.
  unfold sepFree, clean. intros H. eapply Forall_impl; [exact H|].
  intros c Hc. unfold is_sep in Hc.
  destruct (is_ws c); [discriminate | reflexivity].
Qed.

Lemma splitFrom_sepFree (text cur : jsstring) (inRun : bool) (tok : jsstring) :
  sepFree cur -> tok ∈ splitFrom cur inRun text -> sepFree tok.
Proof.
  revert cur inRun. induction text as [|c text IH]; intros cur inRun Hcur; simpl.
  - intros H. apply list_elem_of_singleton in H as ->. now apply sepFree_rev.
  - assert (Hnil : sepFree []) by constructor.
    destruct (is_sep c) eqn:Hsep.
    + destruct inRun.
      * apply IH, Hnil.
      * intros H. apply elem_of_cons in H as [->|H].
        -- now apply sepFree_rev.
        -- revert H. apply IH, Hnil.
    + apply IH. now constructor.
Qed.

Lemma splitFrom_occurs (text cur : jsstring) (inRun : bool) (tok : jsstring) :
  tok ∈ splitFrom cur inRun text -> occurs tok (rev cur ++ text).
Proof.
  revert cur inRun. induction text as [|c text IH]; intros cur inRun; simpl.
  - intros H. apply list_elem_of_singleton in H as ->.
    exists [], []. now rewrite !app_nil_r.
  - assert (Hrest : forall b, tok ∈ splitFrom [] b text ->
                              occurs tok (rev cur ++ c :: text)).
    { intros b H. apply IH in H as [pre [post H]]. simpl in H.
      exists (rev cur ++ c :: pre), post. rewrite H.
      now rewrite <- !app_assoc. }
    destruct (is_sep c).
    + destruct inRun; [apply Hrest|].
      intros H. apply elem_of_cons in H as [->|H]; [|now apply (Hrest true)].
      now exists [], (c :: text).
    + intros H. apply IH in H. simpl in H.
      now rewrite <- app_assoc in H.
Qed.

Lemma baseKeywords_token (cleaned kw : jsstring) :
  kw ∈ baseKeywords cleaned -> sepFree kw /\ occurs kw cleaned.
Proof.
  unfold baseKeywords. rewrite list_elem_of_In, filter_In, in_map_iff.
  intros [[tok [Htrim Htok]] _]. apply list_elem_of_In in Htok.
  assert (Hs : sepFree tok)
    by (apply (splitFrom_sepFree cleaned [] false); [constructor | exact Htok]).
  rewrite (trim_clean tok (sepFree_clean tok Hs)) in Htrim. subst.
  split; [exact Hs|]. now apply (splitFrom_occurs cleaned [] false).
Qed.

(** Every keyword is the summit keyword, a base keyword, or a base keyword
    without its last character. *)
Lemma extractCertKeywords_origin (label kw : jsstring) :
  kw ∈ extractCertKeywords (Some label) ->
  kw = summit \/
  exists tok n, tok ∈ baseKeywords (removeStopWords label) /\ kw = take n tok.
Proof.
  destruct label as [|c cp]; [intros H; inversion H|].
  unfold extractCertKeywords.
  set (base := baseKeywords _).
  assert (Hexp : forall x, x ∈ expandKeywords base ->
                           exists tok n, tok ∈ base /\ x = take n tok).
  { intros x H. apply fold_expand_inv in H as [H|[k [Hk H]]]; [inversion H|].
    destruct H as [->|[-> _]].
    - exists k, (length k). now rewrite firstn_all.
    - exists k, (length k - 1)%nat. auto. }
  destruct (decide (summit ∈ expandKeywords base)); [auto|].
  intros H. apply elem_of_app in H as [H|H]; [auto|].
  apply list_elem_of_singleton in H. auto.
Qed.

Lemma sepFree_take (n : nat) (w : jsstring) : sepFree w -> sepFree (take n w).
Proof. apply Forall_take. Qed.

(** X2. No keyword contains a white-space character, a comma or a
    slash. *)
Theorem extractCertKeywords_sepFree (certPoint : option jsstring)
    (kw : jsstring) (c : N) :
  kw ∈ extractCertKeywords certPoint -> c ∈ kw ->
  is_ws c = false /\ c <> 0x2C /\ c <> 0x2F.
Proof.
  intros Hkw Hc.
  assert (Hs : sepFree kw).
  { destruct certPoint as [label|]; [|inversion Hkw].
    apply extractCertKeywords_origin in Hkw as [->|[tok [n [Htok ->]]]].
    - repeat constructor.
    - apply sepFree_take. now apply baseKeywords_token in Htok as [Hs _]. }
  unfold sepFree in Hs. rewrite Forall_forall in Hs. apply Hs in Hc.
  unfold is_sep in Hc. apply orb_false_iff in Hc as [Hc H2F].
  apply orb_false_iff in Hc as [Hws H2C].
  apply N.eqb_neq in H2C, H2F. auto.
Qed.

Lemma extractCertKeywords_sepFree_witness :
  is_ws 0xCC9C = false /\ 0xCC9C <> 0x2C /\ 0xCC9C <> 0x2F.
Proof.
  apply (extractCertKeywords_sepFree (Some (js "지리산 천왕봉, 중봉"))
           (js "천왕") 0xCC9C).
  - apply (bool_decide_unpack _); vm_compute; exact I.
  - apply (bool_decide_unpack _); vm_compute; exact I.
Defined.

(** *** Stop-word removal *)

Definition spaceFree (w : jsstring) : Prop := Forall (fun c => c <> 0x20) w.

Lemma js_space : js " " = [0x20].
Proof. reflexivity. Qed.

Lemma sepFree_spaceFree (w : jsstring) : sepFree w -> spaceFree w.
Proof.
  unfold sepFree, spaceFree. intros H. eapply Forall_impl; [exact H|].
  intros c Hc ->. discriminate.
Qed.

Lemma occurs_trans (a b c : jsstring) : occurs a b -> occurs b c -> occurs a c.
Proof.
  intros [p1 [q1 ->]] [p2 [q2 ->]]. exists (p2 ++ p1), (q1 ++ q2).
  now rewrite <- !app_assoc.
Qed.

Lemma occurs_take (n : nat) (w : jsstring) : occurs (take n w) w.
Proof. exists [], (drop n w). simpl. now rewrite take_drop. Qed.

(** A prefix without space of the text after replacement is a prefix of
    the text before. *)
Lemma replace_prefix (word text kw : jsstring) :
  spaceFree kw ->
  startsWith (replaceFrom word [0x20] 0 text) kw = true ->
  startsWith text kw = true.
Proof.
  intros Hkw. revert text.
  induction Hkw as [|k kw Hk Hkw IH]; intros text; [reflexivity|].
  destruct text as [|c rest]; [trivial|].
  cbn [replaceFrom]. destruct (startsWith (c :: rest) word); cbn [app startsWith].
  - intros H. apply andb_true_iff in H as [H _].
    apply N.eqb_eq in H. contradiction.
  - intros H. apply andb_true_iff in H as [H1 H2].
    rewrite H1. now apply IH.
Qed.

(** A part without space of the text after replacement is a part of the
    text before. *)
Lemma replace_includes (word kw text : jsstring) (skip : nat) :
  spaceFree kw ->
  includes (replaceFrom word [0x20] skip text) kw = true ->
  includes text kw = true.
Proof.
  intros Hkw. revert skip. induction text as [|c rest IH]; intros skip;
    [trivial|].
  assert (Hrest : forall k, includes (replaceFrom word [0x20] k rest) kw = true ->
                            includes (c :: rest) kw = true).
  { intros k H. cbn [includes]. rewrite (IH k H). apply orb_true_r. }
  destruct skip as [|k]; [|apply Hrest].
  destruct (startsWith (c :: rest) word) eqn:Hm.
  - cbn [replaceFrom]. rewrite Hm. cbn [app includes].
    intros H. apply orb_true_iff in H as [H|H]; [|now apply Hrest in H].
    destruct Hkw as [|x kw Hx Hkw]; [reflexivity|].
    cbn [startsWith] in H. apply andb_true_iff in H as [H _].
    apply N.eqb_eq in H. contradiction.
  - assert (Hout : replaceFrom word [0x20] 0 (c :: rest)
                   = c :: replaceFrom word [0x20] 0 rest)
      by (cbn [replaceFrom]; now rewrite Hm).
    rewrite Hout. cbn [includes]. rewrite <- Hout.
    intros H. apply orb_true_iff in H as [H|H]; [|now apply Hrest in H].
    apply replace_prefix in H; [|exact Hkw]. now rewrite H.
Qed.

(** After the replacement no occurrence of the word is left. *)
Lemma replace_no_word (word text : jsstring) (skip : nat) :
  word <> [] -> spaceFree word ->
  includes (replaceFrom word [0x20] skip text) word = false.
Proof.
  intros Hne Hw. destruct Hw as [|w word Hw0 Hw]; [congruence|].
  revert skip. induction text as [|c rest IH]; intros skip; [reflexivity|].
  destruct skip as [|k]; [|apply IH].
  destruct (startsWith (c :: rest) (w :: word)) eqn:Hm.
  - cbn [replaceFrom]. rewrite Hm. cbn [app includes startsWith].
    rewrite IH. apply N.eqb_neq in Hw0. now rewrite Hw0.
  - assert (Hout : replaceFrom (w :: word) [0x20] 0 (c :: rest)
                   = c :: replaceFrom (w :: word) [0x20] 0 rest)
      by (cbn [replaceFrom]; now rewrite Hm).
    rewrite Hout. cbn [includes]. rewrite IH, orb_false_r, <- Hout.
    destruct (startsWith (replaceFrom (w :: word) [0x20] 0 (c :: rest))
                         (w :: word)) eqn:Hs; [|reflexivity].
    apply replace_prefix in Hs; [congruence | now constructor].
Qed.

Lemma removeStopWords_eq (label : jsstring) :
  removeStopWords label
  = replaceAll (js "인증") [0x20]
      (replaceAll (js "/") [0x20] (replaceAll (js "정상석") [0x20] label)).
Proof. reflexivity. Qed.

Lemma removeStopWords_occurs (label kw : jsstring) :
  spaceFree kw -> occurs kw (removeStopWords label) -> occurs kw label.
Proof.
  intros Hkw H. apply includes_spec in H. apply includes_spec.
  rewrite removeStopWords_eq in H. unfold replaceAll in H.
  repeat (apply replace_includes in H; [|exact Hkw]). exact H.
Qed.

(** X3. Every keyword other than the summit keyword "정상" occurs
    literally in the certification label. *)
Theorem extractCertKeywords_from_label (label kw : jsstring) :
  kw ∈ extractCertKeywords (Some label) ->
  kw = js "정상" \/ exists pre post, label = pre ++ kw ++ post.
Proof.
  intros H. apply extractCertKeywords_origin in H as [H|[tok [n [Htok ->]]]];
    [now left | right].
  apply baseKeywords_token in Htok as [Hs Hocc].
  apply removeStopWords_occurs.
  - apply sepFree_spaceFree, sepFree_take, Hs.
  - apply (occurs_trans _ tok); [apply occurs_take | exact Hocc].
Qed.

Lemma extractCertKeywords_from_label_witness :
  js "인왕" = js "정상" \/
  exists pre post, js "서석대 정상석/ 인왕봉 정상석" = pre ++ js "인왕" ++ post.
Proof.
  apply (extractCertKeywords_from_label (js "서석대 정상석/ 인왕봉 정상석")
           (js "인왕")).
  apply (bool_decide_unpack _); vm_compute; exact I.
Defined.

Lemma stopWord_cases (word : jsstring) :
  word ∈ stopWords ->
  word = js "정상석" \/ word = js "/" \/ word = js "인증".
Proof.
  unfold stopWords. intros H.
  repeat (apply elem_of_cons in H as [H|H]; [auto|]). inversion H.
Qed.

(** X4. No keyword contains one of the stop words "정상석", "/" and
    "인증". *)
Theorem extractCertKeywords_no_stop_word (certPoint : option jsstring)
    (kw word : jsstring) :
  kw ∈ extractCertKeywords certPoint -> word ∈ stopWords ->
  includes kw word = false.
Proof.
  intros Hkw Hword. destruct certPoint as [label|]; [|inversion Hkw].
  apply extractCertKeywords_origin in Hkw as [->|[tok [n [Htok ->]]]].
  - apply stopWord_cases in Hword as [->|[->| ->]]; vm_compute; reflexivity.
  - destruct (includes (take n tok) word) eqn:Hinc; [exfalso|reflexivity].
    apply includes_spec in Hinc.
    apply baseKeywords_token in Htok as [Hs Hocc].
    assert (Htok : occurs word tok)
      by (apply (occurs_trans _ (take n tok)); [exact Hinc | apply occurs_take]).
    assert (Hcl : includes (removeStopWords label) word = true)
      by (apply includes_spec; now apply (occurs_trans _ tok)).
    rewrite removeStopWords_eq in Hcl. unfold replaceAll in Hcl.
    apply stopWord_cases in Hword as [->|[->| ->]].
    + assert (Hsp : spaceFree (js "정상석")) by (repeat constructor; discriminate).
      do 2 (apply replace_includes in Hcl; [|exact Hsp]).
      rewrite replace_no_word in Hcl; [discriminate | discriminate | exact Hsp].
    + destruct Htok as [pre [post ->]].
      unfold sepFree in Hs. rewrite !Forall_app in Hs.
      destruct Hs as [_ [Hs _]]. inversion Hs as [|x l Hx Hl]. discriminate.
    + rewrite replace_no_word in Hcl; [discriminate | discriminate |].
      repeat constructor; discriminate.
Qed.

Lemma extractCertKeywords_no_stop_word_witness :
  includes (js "대청봉") (js "인증") = false.
Proof.
  apply (extractCertKeywords_no_stop_word (Some (js "대청봉 인증")) (js "대청봉")
           (js "인증")).
  - apply (bool_decide_unpack _); vm_compute; exact I.
  - apply (bool_decide_unpack _); vm_compute; exact I.
Defined.

(** ** The summit keyword and the absent label *)

Lemma summit_in_keywords (label : jsstring) :
  label <> [] -> summit ∈ extractCertKeywords (Some label).
Proof.
  intros Hne. destruct label as [|c cp]; [congruence|]. simpl.
  destruct (decide _) as [Hin|_]; [exact Hin|].
  apply elem_of_app. right. now apply list_elem_of_singleton.
Qed.

Lemma falsy_no_keywords (certificationPoint : option jsstring) :
  truthy certificationPoint = false ->
  extractCertKeywords certificationPoint = [].
Proof.
  destruct certificationPoint as [[|c cp]|];
    [reflexivity | discriminate | reflexivity].
Qed.

Section Component.

Variable toLowerCase : jsstring -> jsstring.

(** X5. Whatever the non-empty label, a course whose lower-cased text
    contains the (lower-cased) word "정상" matches. *)
Theorem summit_course_matches (label : jsstring) (feature : Feature) :
  label <> [] ->
  includes (toLowerCase (orEmpty (properties_name feature) ++ js " "
                         ++ orEmpty (properties_detail feature)))
           (toLowerCase (js "정상")) = true ->
  featureMatches toLowerCase (extractCertKeywords (Some label)) feature = true.
Proof.
  intros Hne Hinc. unfold featureMatches, matchesCertPoint.
  destruct (length _ =? 0)%nat; [reflexivity|].
  apply existsb_exists. exists summit. split; [|exact Hinc].
  apply list_elem_of_In, summit_in_keywords, Hne.
Qed.

Lemma matchingIndicesFrom_all (keywords : list jsstring)
    (features : list Feature) (start : nat) :
  Forall (fun f => featureMatches toLowerCase keywords f = true) features ->
  matchingIndicesFrom toLowerCase keywords start features
  = seq start (length features).
Proof.
  intros H. revert start. induction H as [|f fs Hf Hfs IH]; intros start;
    [reflexivity|].
  simpl. rewrite Hf. f_equal. apply IH.
Qed.

Lemma buttonsFrom_all (count start : nat) (isMatches : list bool) :
  Forall (fun b => b = true) isMatches ->
  buttonsFrom count start isMatches = seq start (length isMatches).
Proof.
  intros H. revert start. induction H as [|b bs Hb Hbs IH]; intros start;
    [reflexivity|].
  simpl. rewrite Hb, andb_false_r. f_equal. apply IH.
Qed.

Lemma no_keywords_all_match (features : list Feature) :
  Forall (fun f => featureMatches toLowerCase [] f = true) features.
Proof. apply Forall_forall. reflexivity. Qed.

(** X6. Without a certification label (absent or empty) nothing is
    filtered: all courses of a non-empty list are selected after loading,
    each has a button, all count as matching and no warning is shown. *)
Theorem no_label_shows_all (certificationPoint : option jsstring)
    (npData : list Feature) (st : TrailMapState) :
  truthy certificationPoint = false -> npData <> [] ->
  (exists st',
     loadNationalPark toLowerCase certificationPoint npData st = Some st' /\
     selectedCourses st' = list_to_set (seq 0 (length npData))) /\
  courseButtons toLowerCase certificationPoint npData
  = seq 0 (length npData) /\
  matchingCount toLowerCase certificationPoint npData = length npData /\
  advisoryShown toLowerCase certificationPoint npData = false.
Proof.
  intros Hfalsy Hne.
  pose proof (falsy_no_keywords _ Hfalsy) as Hk.
  pose proof (no_keywords_all_match npData) as Hall.
  assert (Hlen : (0 <? length npData)%nat = true).
  { apply Nat.ltb_lt. destruct npData; [congruence | simpl; lia]. }
  assert (Hcm : courseMatches toLowerCase certificationPoint npData
                = List.map (fun _ => true) npData).
  { unfold courseMatches. rewrite Hk. apply map_ext. reflexivity. }
  assert (Htrue : forall l : list Feature,
             Forall (fun b => b = true) (List.map (fun _ => true) l)).
  { intros l. induction l; constructor; auto. }
  assert (Hfilter : forall l : list Feature,
             List.filter (fun b : bool => b) (List.map (fun _ => true) l)
             = List.map (fun _ => true) l).
  { intros l. induction l; simpl; congruence. }
  repeat split.
  - unfold loadNationalPark. rewrite Hlen, Hk. eexists. split; [reflexivity|].
    cbn [selectedCourses]. rewrite (matchingIndicesFrom_all [] npData 0 Hall).
    rewrite length_seq, Hlen. reflexivity.
  - unfold courseButtons. rewrite Hcm, buttonsFrom_all by apply Htrue.
    now rewrite length_map.
  - unfold matchingCount. now rewrite Hcm, Hfilter, length_map.
  - unfold advisoryShown. rewrite Hfalsy. apply andb_false_r.
Qed.

End Component.

Lemma summit_course_matches_witness :
  featureMatches toLowerCaseLatin (extractCertKeywords (Some (js "백록담")))
                 (course "성판악 정상 코스") = true.
Proof.
  apply (summit_course_matches toLowerCaseLatin (js "백록담")
           (course "성판악 정상 코스")).
  - vm_compute; discriminate.
  - vm_compute; reflexivity.
Defined.

Lemma no_label_shows_all_witness :
  (exists st',
     loadNationalPark toLowerCaseLatin None
       [course "서석대코스"; course "기타코스"] initialState = Some st' /\
     selectedCourses st' = list_to_set (seq 0 2)) /\
  courseButtons toLowerCaseLatin None [course "서석대코스"; course "기타코스"]
  = seq 0 2 /\
  matchingCount toLowerCaseLatin None [course "서석대코스"; course "기타코스"]
  = 2%nat /\
  advisoryShown toLowerCaseLatin None [course "서석대코스"; course "기타코스"]
  = false.
Proof.
  apply (no_label_shows_all toLowerCaseLatin None
           [course "서석대코스"; course "기타코스"] initialState).
  - reflexivity.
  - discriminate.
Defined.

(** ** The course selection of the national-park map *)

(** [selectAllCourses]: nothing happens while no national-park data is
    loaded. *)
Definition selectAllCourses (st : TrailMapState) : TrailMapState :=
  match npTrailData st with
  | Some features =>
    {| npTrailData := npTrailData st;
       dataSource := dataSource st;
       loading := loading st;
       selectedCourses := list_to_set (allIndices features) |}
  | None => st
  end.

Definition clearAllCourses (st : TrailMapState) : TrailMapState :=
  {| npTrailData := npTrailData st;
     dataSource := dataSource st;
     loading := loading st;
     selectedCourses := ∅ |}.

(** [data.features.filter((_, i) => selectedCourses.has(i))], from index
    [idx] on. *)
Fixpoint selectedFrom (selected : gset nat) (idx : nat)
    (features : list Feature) : list Feature :=
  match features with
  | [] => []
  | feature :: rest =>
    if decide (idx ∈ selected)
    then feature :: selectedFrom selected (S idx) rest
    else selectedFrom selected (S idx) rest
  end.

Definition selectedFeatures (features : list Feature) (selected : gset nat)
  : list Feature :=
  selectedFrom selected 0 features.

(** What the user can do on the rendered map. *)
Inductive Action :=
| ClickCourse (idx : nat)
| ClickSelectAll
| ClickClearAll.

Definition perform (a : Action) (st : TrailMapState) : TrailMapState :=
  match a with
  | ClickCourse idx => toggleCourse idx st
  | ClickSelectAll => selectAllCourses st
  | ClickClearAll => clearAllCourses st
  end.

Definition performAll (actions : list Action) (st : TrailMapState)
  : TrailMapState :=
  fold_left (fun s a => perform a s) actions st.

Section Rendering.

Variable toLowerCase : jsstring -> jsstring.

(** The buttons [NationalParkMap] renders: one per entry of
    [courseButtons], and "전체 선택" / "전체 해제" only when
    [matchingCount === 0]. *)
Definition offered (certificationPoint : option jsstring)
    (features : list Feature) (a : Action) : bool :=
  match a with
  | ClickCourse idx =>
    bool_decide (idx ∈ courseButtons toLowerCase certificationPoint features)
  | ClickSelectAll | ClickClearAll =>
    (matchingCount toLowerCase certificationPoint features =? 0)%nat
  end.

(** The number printed in the note on hidden courses, shown when
    [matchingCount > 0 && matchingCount < data.features.length]. *)
Definition hiddenNote (certificationPoint : option jsstring)
    (features : list Feature) : option nat :=
  let count := matchingCount toLowerCase certificationPoint features in
  if (0 <? count)%nat && (count <? length features)%nat
  then Some (length features - count)%nat
  else None.

Lemma loadNationalPark_inv (certificationPoint : option jsstring)
    (npData : list Feature) (st st' : TrailMapState) :
  loadNationalPark toLowerCase certificationPoint npData st = Some st' ->
  npData <> [] /\ npTrailData st' = Some npData /\
  selectedCourses st'
  = (let matchingIndices :=
       matchingIndicesFrom toLowerCase
         (extractCertKeywords certificationPoint) 0 npData in
     if (0 <? length matchingIndices)%nat
     then list_to_set matchingIndices
     else list_to_set (allIndices npData)).
Proof.
  unfold loadNationalPark. destruct npData as [|f fs]; [discriminate|].
  cbn [length Nat.ltb Nat.leb]. intros H. injection H as <-.
  repeat split. discriminate.
Qed.

Lemma loadNationalPark_selected (certificationPoint : option jsstring)
    (npData : list Feature) (st st' : TrailMapState) (idx : nat) :
  loadNationalPark toLowerCase certificationPoint npData st = Some st' ->
  idx ∈ selectedCourses st' <->
  (idx < length npData)%nat /\
  ((exists i, matchesAt toLowerCase certificationPoint npData i) ->
   matchesAt toLowerCase certificationPoint npData idx).
Proof.
  intros H. apply loadNationalPark_inv in H as [_ [_ ->]]. cbv zeta.
  pose proof (matchingIndices_pos toLowerCase certificationPoint npData) as Hpos.
  destruct (0 <? length (matchingIndicesFrom toLowerCase
              (extractCertKeywords certificationPoint) 0 npData))%nat eqn:Hlt.
  - apply Nat.ltb_lt in Hlt. apply Hpos in Hlt as Hex.
    rewrite elem_of_list_to_set, matchingIndicesFrom_spec. split.
    + intros [i [g [-> [Hg Hm]]]]. split.
      * now apply lookup_lt_Some in Hg.
      * intros _. now exists g.
    + intros [_ Hm]. destruct (Hm Hex) as [g Hg]. now exists idx, g.
  - assert (Hno : ~ exists i, matchesAt toLowerCase certificationPoint npData i).
    { intros Hex. apply Hpos in Hex. apply Nat.ltb_ge in Hlt. lia. }
    unfold allIndices. rewrite elem_of_list_to_set, elem_of_seq.
    split; [intros Hi; split; [lia | intros Hex; contradiction] | lia].
Qed.

Lemma courseButtons_spec (certificationPoint : option jsstring)
    (features : list Feature) (idx : nat) :
  idx ∈ courseButtons toLowerCase certificationPoint features <->
  (idx < length features)%nat /\
  ((0 < matchingCount toLowerCase certificationPoint features)%nat ->
   matchesAt toLowerCase certificationPoint features idx).
Proof.
  unfold courseButtons. rewrite buttonsFrom_spec. split.
  - intros [i [b [-> [Hb Hc]]]].
    apply courseMatches_lookup in Hb as [g [Hg ->]]. split.
    + now apply lookup_lt_Some in Hg.
    + intros Hpos. apply Nat.ltb_lt in Hpos. rewrite Hpos in Hc.
      apply negb_false_iff in Hc. now exists g.
  - intros [Hlt Hm]. apply lookup_lt_is_Some in Hlt as [g Hg].
    exists idx, (featureMatches toLowerCase
                   (extractCertKeywords certificationPoint) g).
    repeat split.
    + apply courseMatches_lookup. now exists g.
    + destruct (0 <? _)%nat eqn:Hpos; [|reflexivity].
      apply Nat.ltb_lt in Hpos. destruct (Hm Hpos) as [g' [Hg' Hm']].
      rewrite Hg in Hg'. injection Hg' as <-. now rewrite Hm'.
Qed.

(** X7. Starting from the default selection, whatever buttons of the
    rendered map the user clicks, a selected index is always the index of
    a course of the list, and, when some course matches the label, of a
    matching course: a hidden course is never drawn. *)
Theorem selection_stays_visible (certificationPoint : option jsstring)
    (npData : list Feature) (st st' : TrailMapState)
    (actions : list Action) (idx : nat) :
  loadNationalPark toLowerCase certificationPoint npData st = Some st' ->
  Forall (fun a => offered certificationPoint npData a = true) actions ->
  idx ∈ selectedCourses (performAll actions st') ->
  (idx < length npData)%nat /\
  ((exists i, matchesAt toLowerCase certificationPoint npData i) ->
   matchesAt toLowerCase certificationPoint npData idx).
Proof.
  intros Hload Hact.
  set (ok := fun i : nat =>
    (i < length npData)%nat /\
    ((exists i, matchesAt toLowerCase certificationPoint npData i) ->
     matchesAt toLowerCase certificationPoint npData i)).
  assert (Hinv : npTrailData st' = Some npData /\
                 forall i, i ∈ selectedCourses st' -> ok i).
  { split; [now apply loadNationalPark_inv in Hload|].
    intros i Hi. now apply (loadNationalPark_selected _ _ _ _ i Hload). }
  clear Hload. revert st' Hinv idx.
  induction Hact as [|a actions Ha Hact IH]; intros st' [Hnp Hsel] idx;
    [apply Hsel|].
  apply IH. clear IH idx. destruct a as [i| |]; simpl in *.
  - split; [exact Hnp|]. intros j Hj. apply elem_of_toggleSet in Hj.
    destruct Hj as [[_ Hj]|[-> _]]; [now apply Hsel|].
    apply bool_decide_eq_true in Ha. apply courseButtons_spec in Ha as [Hlt Hm].
    split; [exact Hlt|]. intros Hex. apply Hm.
    now apply matchingCount_pos.
  - unfold selectAllCourses. rewrite Hnp. simpl. split; [reflexivity|].
    intros j Hj. unfold allIndices in Hj.
    apply elem_of_list_to_set, elem_of_seq in Hj.
    split; [lia|]. intros Hex. apply matchingCount_pos in Hex.
    apply Nat.eqb_eq in Ha. lia.
  - split; [exact Hnp|]. intros j Hj. now apply not_elem_of_empty in Hj.
Qed.

End Rendering.

Lemma selection_stays_visible_witness :
  (1 < 3)%nat /\
  ((exists i, matchesAt toLowerCaseLatin (Some (js "서석대 정상석/ 인왕봉 정상석"))
                [course "서석대코스"; course "인왕봉코스"; course "기타코스"] i) ->
   matchesAt toLowerCaseLatin (Some (js "서석대 정상석/ 인왕봉 정상석"))
     [course "서석대코스"; course "인왕봉코스"; course "기타코스"] 1).
Proof.
  apply (selection_stays_visible toLowerCaseLatin
           (Some (js "서석대 정상석/ 인왕봉 정상석"))
           [course "서석대코스"; course "인왕봉코스"; course "기타코스"]
           initialState
           {| npTrailData :=
                Some [course "서석대코스"; course "인왕봉코스"; course "기타코스"];
              dataSource := Some national_park; loading := false;
              selectedCourses := {[0%nat; 1%nat]} |}
           [ClickCourse 0; ClickCourse 1; ClickCourse 1]).
  - vm_compute. reflexivity.
  - repeat constructor.
  - apply (bool_decide_unpack _); vm_compute; exact I.
Defined.

(** ** Counts and the selected features *)

Section Counts.

Variable toLowerCase : jsstring -> jsstring.

Lemma matchingIndicesFrom_length (keywords : list jsstring)
    (features : list Feature) (start : nat) :
  length (matchingIndicesFrom toLowerCase keywords start features)
  = length (List.filter (fun b : bool => b)
              (List.map (featureMatches toLowerCase keywords) features)).
Proof.
  revert start. induction features as [|f fs IH]; intros start; [reflexivity|].
  simpl. destruct (featureMatches toLowerCase keywords f); simpl;
    now rewrite IH.
Qed.

Lemma matchingIndicesFrom_NoDup (keywords : list jsstring)
    (features : list Feature) (start : nat) :
  NoDup (matchingIndicesFrom toLowerCase keywords start features).
Proof.
  revert start. induction features as [|f fs IH]; intros start; simpl;
    [apply NoDup_nil_2|].
  destruct (featureMatches toLowerCase keywords f); [|apply IH].
  apply NoDup_cons. split; [|apply IH].
  rewrite matchingIndicesFrom_spec. intros [i [g [H _]]]. lia.
Qed.

Lemma matchingCount_le (certificationPoint : option jsstring)
    (features : list Feature) :
  (matchingCount toLowerCase certificationPoint features <= length features)%nat.
Proof.
  unfold matchingCount, courseMatches.
  etransitivity; [apply filter_length_le|]. now rewrite length_map.
Qed.

(** X8. The default selection has [matchingCount] elements when that
    count is positive and as many as there are courses otherwise; it is
    never empty. *)
Theorem default_selection_size (certificationPoint : option jsstring)
    (npData : list Feature) (st st' : TrailMapState) :
  loadNationalPark toLowerCase certificationPoint npData st = Some st' ->
  size (selectedCourses st')
  = (if (0 <? matchingCount toLowerCase certificationPoint npData)%nat
     then matchingCount toLowerCase certificationPoint npData
     else length npData) /\
  (0 < size (selectedCourses st'))%nat.
Proof.
  intros H. apply loadNationalPark_inv in H as [Hne [_ ->]]. cbv zeta.
  rewrite matchingIndicesFrom_length.
  fold (courseMatches toLowerCase certificationPoint npData).
  fold (matchingCount toLowerCase certificationPoint npData).
  destruct (0 <? matchingCount toLowerCase certificationPoint npData)%nat
    eqn:Hpos.
  - rewrite size_list_to_set by apply matchingIndicesFrom_NoDup.
    rewrite matchingIndicesFrom_length. apply Nat.ltb_lt in Hpos.
    split; [reflexivity | exact Hpos].
  - unfold allIndices. rewrite size_list_to_set by apply NoDup_seq.
    rewrite length_seq. split; [reflexivity|].
    destruct npData; [congruence | simpl; lia].
Qed.

Lemma selectedFrom_filter (selected : gset nat) (keep : Feature -> bool)
    (before features : list Feature) :
  (forall i f, (before ++ features) !! i = Some f ->
               (i ∈ selected <-> keep f = true)) ->
  selectedFrom selected (length before) features = List.filter keep features.
Proof.
  revert before. induction features as [|f fs IH]; intros before H;
    [reflexivity|].
  simpl.
  assert (Hf : (before ++ f :: fs) !! length before = Some f)
    by now rewrite lookup_app_r, Nat.sub_diag.
  assert (Hrest : selectedFrom selected (S (length before)) fs
                  = List.filter keep fs).
  { replace (S (length before)) with (length (before ++ [f]))
      by (rewrite length_app; simpl; lia).
    apply IH. intros i g Hg. apply H. now rewrite <- app_assoc in Hg. }
  apply H in Hf. rewrite Hrest.
  destruct (decide (length before ∈ selected)) as [Hin|Hout];
    destruct (keep f); try reflexivity.
  - apply Hf in Hin. discriminate.
  - exfalso. apply Hout, Hf. reflexivity.
Qed.

(** X9. Right after loading, [selectedFeatures] is the list of the
    matching courses in their order, or the whole list when no course
    matches. *)
Theorem default_selectedFeatures (certificationPoint : option jsstring)
    (npData : list Feature) (st st' : TrailMapState) :
  loadNationalPark toLowerCase certificationPoint npData st = Some st' ->
  selectedFeatures npData (selectedCourses st')
  = (if (0 <? matchingCount toLowerCase certificationPoint npData)%nat
     then List.filter
            (featureMatches toLowerCase (extractCertKeywords certificationPoint))
            npData
     else npData).
Proof.
  intros Hload. unfold selectedFeatures.
  pose proof (matchingCount_pos toLowerCase certificationPoint npData) as Hpos.
  destruct (0 <? matchingCount toLowerCase certificationPoint npData)%nat
    eqn:Hc.
  - apply Nat.ltb_lt, Hpos in Hc.
    apply (selectedFrom_filter _ _ []). intros i f Hf. simpl in Hf.
    rewrite (loadNationalPark_selected _ _ _ _ _ i Hload). split.
    + intros [_ Hm]. destruct (Hm Hc) as [g [Hg Hgm]]. congruence.
    + intros Hm. split; [now apply lookup_lt_Some in Hf|].
      intros _. now exists f.
  - assert (Hno : ~ exists i, matchesAt toLowerCase certificationPoint npData i).
    { intros Hex. apply Hpos in Hex. apply Nat.ltb_ge in Hc. lia. }
    rewrite (selectedFrom_filter _ (fun _ => true) []).
    + clear. induction npData; simpl; congruence.
    + intros i f Hf. simpl in Hf.
      rewrite (loadNationalPark_selected _ _ _ _ _ i Hload).
      split; [reflexivity|]. intros _.
      split; [now apply lookup_lt_Some in Hf | intros Hex; contradiction].
Qed.

Lemma buttonsFrom_length (count start : nat) (isMatches : list bool) :
  length (buttonsFrom count start isMatches)
  = (if (0 <? count)%nat
     then length (List.filter (fun b : bool => b) isMatches)
     else length isMatches).
Proof.
  revert start. induction isMatches as [|b bs IH]; intros start; simpl;
    [now destruct (0 <? count)%nat|].
  specialize (IH (S start)).
  destruct (0 <? count)%nat; destruct b; simpl; now rewrite IH.
Qed.

(** X10. The note on hidden courses prints exactly the number of courses
    that have no button, and when the note is not shown every course has
    a button; the number of matching courses never exceeds the number of
    courses. *)
Theorem hidden_note_counts (certificationPoint : option jsstring)
    (features : list Feature) :
  (length (courseButtons toLowerCase certificationPoint features)
   + default 0 (hiddenNote toLowerCase certificationPoint features)
   = length features)%nat /\
  (forall n, hiddenNote toLowerCase certificationPoint features = Some n ->
             (0 < n)%nat) /\
  (matchingCount toLowerCase certificationPoint features
   <= length features)%nat.
Proof.
  pose proof (matchingCount_le certificationPoint features) as Hle.
  unfold courseButtons, hiddenNote. rewrite buttonsFrom_length.
  fold (matchingCount toLowerCase certificationPoint features).
  assert (Hlen : length (courseMatches toLowerCase certificationPoint features)
                 = length features)
    by (unfold courseMatches; apply length_map).
  rewrite Hlen.
  destruct (0 <? matchingCount toLowerCase certificationPoint features)%nat
    eqn:Hpos; simpl.
  - destruct (_ <? length features)%nat eqn:Hlt; simpl.
    + apply Nat.ltb_lt in Hlt. repeat split; [lia | | exact Hle].
      intros n Hn. injection Hn as <-. lia.
    + apply Nat.ltb_ge in Hlt. repeat split; [lia | discriminate | exact Hle].
  - repeat split; [lia | discriminate | exact Hle].
Qed.

Lemma performAll_data (actions : list Action) (st : TrailMapState) :
  npTrailData (performAll actions st) = npTrailData st /\
  dataSource (performAll actions st) = dataSource st /\
  loading (performAll actions st) = loading st.
Proof.
  revert st. induction actions as [|a actions IH]; intros st; [auto|].
  unfold performAll in *. simpl. destruct (IH (perform a st)) as [H1 [H2 H3]].
  rewrite H1, H2, H3. destruct a; simpl; [auto | | auto].
  unfold selectAllCourses.
  destruct (npTrailData st) eqn:E; simpl; rewrite ?E; auto.
Qed.

(** X11. When no course matches the label, "select all" brings back the
    state as it was right after loading, whatever was clicked in
    between. *)
Theorem select_all_restores_default (certificationPoint : option jsstring)
    (npData : list Feature) (st st' : TrailMapState)
    (actions : list Action) :
  loadNationalPark toLowerCase certificationPoint npData st = Some st' ->
  matchingCount toLowerCase certificationPoint npData = 0%nat ->
  selectAllCourses (performAll actions st') = st'.
Proof.
  intros Hload Hzero.
  pose proof (performAll_data actions st') as [H1 [H2 H3]].
  unfold selectAllCourses. rewrite H1.
  unfold loadNationalPark in Hload.
  destruct (0 <? length npData)%nat; [|discriminate].
  injection Hload as <-. cbn [npTrailData dataSource loading] in *.
  rewrite ?H1, ?H2, ?H3. f_equal.
  rewrite matchingIndicesFrom_length.
  fold (courseMatches toLowerCase certificationPoint npData).
  fold (matchingCount toLowerCase certificationPoint npData).
  now rewrite Hzero.
Qed.

End Counts.

(** The courses and the loaded state of an example. *)
Definition mudeungsanCourses : list Feature :=
  [course "서석대코스"; course "인왕봉코스"; course "기타코스"].

Definition mudeungsanLoaded : TrailMapState :=
  {| npTrailData := Some mudeungsanCourses;
     dataSource := Some national_park; loading := false;
     selectedCourses := {[0%nat; 1%nat]} |}.

Lemma default_selection_size_witness :
  size (selectedCourses mudeungsanLoaded)
  = (if (0 <? matchingCount toLowerCaseLatin
                (Some (js "서석대 정상석/ 인왕봉 정상석")) mudeungsanCourses)%nat
     then matchingCount toLowerCaseLatin
            (Some (js "서석대 정상석/ 인왕봉 정상석")) mudeungsanCourses
     else length mudeungsanCourses) /\
  (0 < size (selectedCourses mudeungsanLoaded))%nat.
Proof.
  apply (default_selection_size toLowerCaseLatin
           (Some (js "서석대 정상석/ 인왕봉 정상석")) mudeungsanCourses
           initialState mudeungsanLoaded).
  vm_compute. reflexivity.
Defined.

Lemma default_selectedFeatures_witness :
  selectedFeatures mudeungsanCourses (selectedCourses mudeungsanLoaded)
  = (if (0 <? matchingCount toLowerCaseLatin
                (Some (js "서석대 정상석/ 인왕봉 정상석")) mudeungsanCourses)%nat
     then List.filter
            (featureMatches toLowerCaseLatin
               (extractCertKeywords (Some (js "서석대 정상석/ 인왕봉 정상석"))))
            mudeungsanCourses
     else mudeungsanCourses).
Proof.
  apply (default_selectedFeatures toLowerCaseLatin
           (Some (js "서석대 정상석/ 인왕봉 정상석")) mudeungsanCourses
           initialState mudeungsanLoaded).
  vm_compute. reflexivity.
Defined.

Lemma select_all_restores_default_witness :
  selectAllCourses
    (performAll [ClickClearAll; ClickCourse 1]
       {| npTrailData := Some [course "서석대코스"; course "기타코스"];
          dataSource := Some national_park; loading := false;
          selectedCourses := {[0%nat; 1%nat]} |})
  = {| npTrailData := Some [course "서석대코스"; course "기타코스"];
       dataSource := Some national_park; loading := false;
       selectedCourses := {[0%nat; 1%nat]} |}.
Proof.
  apply (select_all_restores_default toLowerCaseLatin (Some (js "미상봉"))
           [course "서석대코스"; course "기타코스"] initialState).
  - vm_compute. reflexivity.
  - vm_compute. reflexivity.
Defined.

(** ** Course colours *)

Definition TRAIL_COLORS : list jsstring :=
  [js "#3b82f6"; js "#ef4444"; js "#22c55e"; js "#f59e0b"; js "#8b5cf6";
   js "#ec4899"; js "#06b6d4"; js "#f97316"; js "#84cc16"; js "#6366f1"].

(** [TRAIL_COLORS[idx % TRAIL_COLORS.length]]; [None] stands for
    [undefined]. *)
Definition trailColor (idx : nat) : option jsstring :=
  TRAIL_COLORS !! (idx mod length TRAIL_COLORS)%nat.

Lemma TRAIL_COLORS_NoDup : NoDup TRAIL_COLORS.
Proof. apply (bool_decide_unpack _). vm_compute. exact I. Qed.

(** X12. Every course index has a colour of the palette, and two courses
    have the same colour exactly when their indices differ by a multiple
    of ten. *)
Theorem trailColor_defined (idx other : nat) :
  (exists color, trailColor idx = Some color /\ color ∈ TRAIL_COLORS) /\
  (trailColor idx = trailColor other <-> (idx mod 10 = other mod 10)%nat).
Proof.
  unfold trailColor. change (length TRAIL_COLORS) with 10%nat.
  assert (Hb : forall i, (i mod 10 < length TRAIL_COLORS)%nat)
    by (intros i; apply Nat.mod_upper_bound; discriminate).
  split.
  - destruct (lookup_lt_is_Some_2 TRAIL_COLORS _ (Hb idx)) as [color Hc].
    exists color. split; [exact Hc|]. now apply list_elem_of_lookup_2 in Hc.
  - split; [|now intros ->].
    destruct (lookup_lt_is_Some_2 TRAIL_COLORS _ (Hb idx)) as [color Hc].
    rewrite Hc. intros Ho. symmetry in Ho.
    apply (NoDup_lookup TRAIL_COLORS _ _ color TRAIL_COLORS_NoDup Hc Ho).
Qed.

(** ** Looking a mountain up in the trail index *)

(** An entry of [/trails/index.json]; only the name and the code are
    read. *)
Record TrailIndex := {
  mountain_name : jsstring;
  mnt_code : N
}.

(** [text.split(sep)] for a separator of one code unit; [cur] is the piece
    being read, reversed. *)
Fixpoint splitChar (sep : N) (cur : jsstring) (text : jsstring)
  : list jsstring :=
  match text with
  | [] => [rev cur]
  | c :: rest =>
    if c =? sep then rev cur :: splitChar sep [] rest
    else splitChar sep (c :: cur) rest
  end.

(** [mountainName.split('(')[0]] *)
Definition baseName (mountainName : jsstring) : jsstring :=
  hd [] (splitChar 0x28 [] mountainName).

(** The lookup of [fetchTrailData] on the forest-service path: the entry
    of that name or, failing that, the first entry whose name is the base
    name or begins with the base name and an opening parenthesis.  [None]
    leads to the message '등산로 데이터가 없습니다'. *)
Definition findMountainInfo (index : list TrailIndex)
    (mountainName : jsstring) : option TrailIndex :=
  match List.find (fun m => bool_decide (mountain_name m = mountainName))
                  index with
  | Some mountainInfo => Some mountainInfo
  | None =>
    let baseName := baseName mountainName in
    List.find (fun m => bool_decide (mountain_name m = baseName)
                        || startsWith (mountain_name m) (baseName ++ js "("))
              index
  end.

Lemma splitChar_hd (sep : N) (cur text : jsstring) :
  exists rest,
    rev cur ++ text = hd [] (splitChar sep cur text) ++ rest /\
    (rest = [] \/ exists tail, rest = sep :: tail) /\
    (sep ∉ cur -> sep ∉ hd [] (splitChar sep cur text)).
Proof.
  revert cur. induction text as [|c text IH]; intros cur; simpl.
  - exists []. repeat split; [auto|].
    intros H Hin. apply H. rewrite list_elem_of_In in *. now apply in_rev.
  - destruct (c =? sep) eqn:Hc.
    + apply N.eqb_eq in Hc as ->. exists (sep :: text). simpl.
      repeat split; [eauto|].
      intros H Hin. apply H. rewrite list_elem_of_In in *. now apply in_rev.
    + apply N.eqb_neq in Hc. destruct (IH (c :: cur)) as [rest [H1 [H2 H3]]].
      exists rest. simpl in H1. rewrite <- app_assoc in H1.
      repeat split; [exact H1 | exact H2|].
      intros H. apply H3. intros Hin. apply elem_of_cons in Hin as [Hin|Hin];
        [congruence | contradiction].
Qed.

Lemma baseName_unique (base rest : jsstring) :
  0x28 ∉ base -> (rest = [] \/ exists tail, rest = 0x28 :: tail) ->
  baseName (base ++ rest) = base.
Proof.
  intros Hbase Hrest. unfold baseName.
  assert (H : forall cur, hd [] (splitChar 0x28 cur (base ++ rest))
                          = rev cur ++ base).
  { induction base as [|b base IH]; intros cur; simpl.
    - rewrite app_nil_r. destruct Hrest as [->|[tail ->]]; reflexivity.
    - destruct (b =? 0x28) eqn:Hb.
      + apply N.eqb_eq in Hb. subst. exfalso. apply Hbase. now left.
      + rewrite IH; [simpl; now rewrite <- app_assoc|].
        intros Hin. apply Hbase. now right. }
  apply (H []).
Qed.

Lemma baseName_split (mountainName : jsstring) :
  (0x28 ∉ baseName mountainName) /\
  exists rest,
    mountainName = baseName mountainName ++ rest /\
    (rest = [] \/ exists tail, rest = 0x28 :: tail).
Proof.
  destruct (splitChar_hd 0x28 [] mountainName) as [rest [H1 [H2 H3]]].
  split.
  - apply H3. intros H. inversion H.
  - exists rest. auto.
Qed.

(** X13. The base name is the part of the name before the first opening
    parenthesis: it contains none, the name is the base name followed by
    nothing or by a text starting with "(", and no other text has these
    two properties. *)
Theorem baseName_spec (mountainName base : jsstring) :
  ((0x28 ∉ base) /\
   exists rest,
     mountainName = base ++ rest /\
     (rest = [] \/ exists tail, rest = 0x28 :: tail)) <->
  base = baseName mountainName.
Proof.
  split.
  - intros [Hno [rest [-> Hrest]]]. symmetry. now apply baseName_unique.
  - intros ->. apply baseName_split.
Qed.

(** An entry qualifies in the second search exactly when its base name
    is the base name asked for. *)
Lemma fallback_test (name mountainName : jsstring) :
  (bool_decide (name = baseName mountainName)
   || startsWith name (baseName mountainName ++ js "(")) = true <->
  baseName name = baseName mountainName.
Proof.
  destruct (baseName_split mountainName) as [Hno _].
  rewrite orb_true_iff, bool_decide_eq_true, startsWith_spec. split.
  - intros [->|[post ->]].
    + rewrite <- (app_nil_r (baseName mountainName)) at 1.
      apply baseName_unique; auto.
    + rewrite <- app_assoc. apply baseName_unique; [exact Hno|].
      right. now exists post.
  - intros <-. destruct (baseName_split name) as [_ [rest [Hname Hrest]]].
    destruct Hrest as [->|[tail ->]].
    + left. now rewrite app_nil_r in Hname.
    + right. exists tail. rewrite Hname at 1. now rewrite <- app_assoc.
Qed.

(** X14. The lookup finds an entry exactly when some entry of the index
    has the same base name as the mountain asked for; the entry found has
    that base name, and it bears the very name asked for whenever the
    index has such an entry. *)
Theorem findMountainInfo_spec (index : list TrailIndex)
    (mountainName : jsstring) :
  (findMountainInfo index mountainName = None <->
   forall m, m ∈ index ->
             baseName (mountain_name m) <> baseName mountainName) /\
  (forall m, findMountainInfo index mountainName = Some m ->
     m ∈ index /\
     baseName (mountain_name m) = baseName mountainName /\
     ((exists e, e ∈ index /\ mountain_name e = mountainName) ->
      mountain_name m = mountainName)).
Proof.
  unfold findMountainInfo.
  destruct (List.find (fun m => bool_decide (mountain_name m = mountainName))
                      index) as [exact|] eqn:Hexact.
  - apply find_some in Hexact as [Hin Hname].
    apply bool_decide_eq_true in Hname. apply list_elem_of_In in Hin.
    split.
    + split; [discriminate|]. intros H. exfalso. apply (H exact Hin).
      now rewrite Hname.
    + intros m Hm. injection Hm as <-. rewrite Hname. auto.
  - split.
    + split.
      * intros Hnone m Hin Hbase. apply list_elem_of_In in Hin.
        apply (find_none _ _ Hnone) in Hin. cbv beta in Hin.
        apply fallback_test in Hbase. congruence.
      * intros Hall.
        match goal with |- ?found = None =>
          destruct found as [m|] eqn:Hfind; [|reflexivity] end.
        apply find_some in Hfind as [Hin Htest].
        apply fallback_test in Htest. apply list_elem_of_In in Hin.
        now apply Hall in Hin.
    + intros m Hfind. apply find_some in Hfind as [Hin Htest].
      apply fallback_test in Htest. apply list_elem_of_In in Hin.
      repeat split; [exact Hin | exact Htest|].
      intros [e [He Hname]]. apply list_elem_of_In in He.
      apply (find_none _ _ Hexact) in He. cbv beta in He.
      apply bool_decide_eq_false in He. contradiction.
Qed.

Lemma findMountainInfo_spec_witness :
  {| mountain_name := js "가리산(홍천)"; mnt_code := 7 |}
    ∈ [ {| mountain_name := js "가리왕산"; mnt_code := 3 |};
        {| mountain_name := js "가리산(홍천)"; mnt_code := 7 |} ] /\
  baseName (js "가리산(홍천)") = baseName (js "가리산") /\
  ((exists e, e ∈ [ {| mountain_name := js "가리왕산"; mnt_code := 3 |};
                    {| mountain_name := js "가리산(홍천)"; mnt_code := 7 |} ] /\
              mountain_name e = js "가리산") ->
   js "가리산(홍천)" = js "가리산").
Proof.
  apply (proj2 (findMountainInfo_spec
           [ {| mountain_name := js "가리왕산"; mnt_code := 3 |};
             {| mountain_name := js "가리산(홍천)"; mnt_code := 7 |} ]
           (js "가리산"))
         {| mountain_name := js "가리산(홍천)"; mnt_code := 7 |}).
  vm_compute. reflexivity.
Defined.

(** ** GPX export: escaping and file names *)

(** [escapeXml]: five global replacements, the ampersand first. *)
Definition escapeXml (str : jsstring) : jsstring :=
  replaceAll [0x27] (js "&apos;")
    (replaceAll [0x22] (js "&quot;")
       (replaceAll [0x3E] (js "&gt;")
          (replaceAll [0x3C] (js "&lt;")
             (replaceAll [0x26] (js "&amp;") str)))).

(** [s.endsWith(suffix)] *)
Definition endsWith (s suffix : jsstring) : bool :=
  (length suffix <=? length s)%nat
  && bool_decide (drop (length s - length suffix) s = suffix).

(** The [download] attribute set by [downloadGpx]. *)
Definition downloadName (filename : jsstring) : jsstring :=
  if endsWith filename (js ".gpx") then filename else filename ++ js ".gpx".

(** The escape of one code unit. *)
Definition escapeUnit (c : N) : jsstring :=
  if c =? 0x26 then js "&amp;"
  else if c =? 0x3C then js "&lt;"
  else if c =? 0x3E then js "&gt;"
  else if c =? 0x22 then js "&quot;"
  else if c =? 0x27 then js "&apos;"
  else [c].

Definition special (c : N) : bool :=
  (c =? 0x26) || (c =? 0x3C) || (c =? 0x3E) || (c =? 0x22) || (c =? 0x27).

Lemma replaceAll_unit (w : N) (rep text : jsstring) :
  replaceAll [w] rep text
  = flat_map (fun c => if c =? w then rep else [c]) text.
Proof.
  unfold replaceAll. induction text as [|c text IH]; [reflexivity|].
  cbn [replaceFrom startsWith length Nat.sub flat_map].
  rewrite andb_true_r, N.eqb_sym, IH. now destruct (c =? w).
Qed.

Lemma flat_map_flat_map (f g : N -> jsstring) (s : jsstring) :
  flat_map g (flat_map f s) = flat_map (fun c => flat_map g (f c)) s.
Proof.
  induction s as [|c s IH]; [reflexivity|].
  simpl. now rewrite flat_map_app, IH.
Qed.

Lemma escapeUnit_cases (c : N) :
  (c = 0x26 /\ escapeUnit c = js "&amp;") \/
  (c = 0x3C /\ escapeUnit c = js "&lt;") \/
  (c = 0x3E /\ escapeUnit c = js "&gt;") \/
  (c = 0x22 /\ escapeUnit c = js "&quot;") \/
  (c = 0x27 /\ escapeUnit c = js "&apos;") \/
  (special c = false /\ escapeUnit c = [c]).
Proof.
  unfold escapeUnit, special.
  destruct (c =? 0x26) eqn:H1; [apply N.eqb_eq in H1; auto|].
  destruct (c =? 0x3C) eqn:H2; [apply N.eqb_eq in H2; auto|].
  destruct (c =? 0x3E) eqn:H3; [apply N.eqb_eq in H3; auto 6|].
  destruct (c =? 0x22) eqn:H4; [apply N.eqb_eq in H4; auto 7|].
  destruct (c =? 0x27) eqn:H5; [apply N.eqb_eq in H5; auto 8|].
  auto 10.
Qed.

(** The five replacements in sequence escape each code unit on its own:
    the text inserted by one replacement is left alone by the next. *)
Lemma escapeXml_units (str : jsstring) :
  escapeXml str = flat_map escapeUnit str.
Proof.
  unfold escapeXml. rewrite !replaceAll_unit, !flat_map_flat_map.
  apply flat_map_ext. intros c.
  unfold escapeUnit.
  destruct (c =? 0x26) eqn:H1;
    [apply N.eqb_eq in H1; subst; reflexivity|].
  destruct (c =? 0x3C) eqn:H2;
    [apply N.eqb_eq in H2; subst; reflexivity|].
  destruct (c =? 0x3E) eqn:H3;
    [apply N.eqb_eq in H3; subst; reflexivity|].
  destruct (c =? 0x22) eqn:H4;
    [apply N.eqb_eq in H4; subst; reflexivity|].
  destruct (c =? 0x27) eqn:H5;
    [apply N.eqb_eq in H5; subst; reflexivity|].
  do 4 (cbn [flat_map app]; rewrite ?H2, ?H3, ?H4, ?H5).
  reflexivity.
Qed.

Lemma escapeUnit_length (c : N) :
  (1 <= length (escapeUnit c))%nat /\
  (length (escapeUnit c) = 1%nat -> special c = false).
Proof.
  destruct (escapeUnit_cases c)
    as [[-> ->]|[[-> ->]|[[-> ->]|[[-> ->]|[[-> ->]|[Hs ->]]]]]];
    (split; [vm_compute; lia | try (vm_compute; discriminate)]).
  intros _. exact Hs.
Qed.

Lemma escape_length_ge (str : jsstring) :
  (length str <= length (flat_map escapeUnit str))%nat.
Proof.
  induction str as [|c str IH]; [reflexivity|].
  cbn [flat_map]. rewrite length_app.
  destruct (escapeUnit_length c) as [H _]. simpl. lia.
Qed.

(** X15. Escaping distributes over concatenation, and it changes a text
    exactly when the text contains an ampersand, an angle bracket, a
    double quote or an apostrophe. *)
Theorem escapeXml_app (a b : jsstring) :
  escapeXml (a ++ b) = escapeXml a ++ escapeXml b /\
  (escapeXml a = a <-> forallb (fun c => negb (special c)) a = true).
Proof.
  rewrite !escapeXml_units. split; [apply flat_map_app|]. split.
  - intros H. apply (f_equal length) in H.
    induction a as [|c a IH]; [reflexivity|].
    cbn [flat_map forallb] in *. rewrite length_app in H. simpl in H.
    destruct (escapeUnit_length c) as [H1 Hs].
    pose proof (escape_length_ge a) as Hge.
    rewrite Hs by lia. apply IH. lia.
  - induction a as [|c a IH]; [reflexivity|].
    cbn [flat_map forallb]. intros H. apply andb_true_iff in H as [Hc Ha].
    apply negb_true_iff in Hc. rewrite (IH Ha).
    destruct (escapeUnit_cases c)
      as [[-> _]|[[-> _]|[[-> _]|[[-> _]|[[-> _]|[_ ->]]]]]];
      try discriminate. reflexivity.
Qed.

(** The names of the five entities, after the ampersand. *)
Definition entityNames : list jsstring :=
  [js "amp;"; js "lt;"; js "gt;"; js "quot;"; js "apos;"].

Lemma escapeUnit_special (c : N) :
  special c = true ->
  exists name, name ∈ entityNames /\ escapeUnit c = 0x26 :: name.
Proof.
  intros Hs.
  destruct (escapeUnit_cases c)
    as [[-> ->]|[[-> ->]|[[-> ->]|[[-> ->]|[[-> ->]|[Hn _]]]]]];
    [exists (js "amp;") | exists (js "lt;") | exists (js "gt;")
     | exists (js "quot;") | exists (js "apos;") | congruence];
    (split; [apply (bool_decide_unpack _); vm_compute; exact I | reflexivity]).
Qed.

Lemma escapeUnit_plain (c : N) : special c = false -> escapeUnit c = [c].
Proof.
  intros Hs.
  destruct (escapeUnit_cases c)
    as [[-> _]|[[-> _]|[[-> _]|[[-> _]|[[-> _]|[_ H]]]]]];
    try discriminate. exact H.
Qed.

Lemma entityNames_chars (name : jsstring) (c : N) :
  name ∈ entityNames -> c ∈ name -> special c = false.
Proof.
  unfold entityNames. intros Hn Hc.
  repeat (apply elem_of_cons in Hn as [->|Hn];
          [repeat (apply elem_of_cons in Hc as [->|Hc]; [reflexivity|]);
           inversion Hc|]).
  inversion Hn.
Qed.

(** Where an element of a concatenation lies. *)
Lemma app_split (e rest pre post : jsstring) (c : N) :
  e ++ rest = pre ++ c :: post ->
  (exists e1 e2, e = e1 ++ c :: e2 /\ pre = e1 /\ post = e2 ++ rest) \/
  (exists pre', pre = e ++ pre' /\ rest = pre' ++ c :: post).
Proof.
  revert pre. induction e as [|x e IH]; intros pre H.
  - right. now exists pre.
  - destruct pre as [|p pre]; simpl in H; injection H as -> H.
    + left. now exists [], e.
    + apply IH in H as [[e1 [e2 [-> [-> ->]]]]|[pre' [-> ->]]].
      * left. now exists (p :: e1), e2.
      * right. now exists pre'.
Qed.

(** X16. The escaped text contains no angle bracket, double quote or
    apostrophe, and each of its ampersands begins one of the five
    entities. *)
Theorem escapeXml_safe (str : jsstring) :
  (forall c, c ∈ escapeXml str ->
             c <> 0x3C /\ c <> 0x3E /\ c <> 0x22 /\ c <> 0x27) /\
  (forall pre post, escapeXml str = pre ++ 0x26 :: post ->
     exists name, name ∈ entityNames /\ startsWith post name = true).
Proof.
  rewrite escapeXml_units. split.
  - intros c Hc. apply list_elem_of_In, in_flat_map in Hc as [x [_ Hc]].
    apply list_elem_of_In in Hc.
    assert (Hs : c = 0x26 \/ special c = false).
    { destruct (special x) eqn:Hx.
      - apply escapeUnit_special in Hx as [name [Hn Hx]]. rewrite Hx in Hc.
        apply elem_of_cons in Hc as [->|Hc]; [now left | right].
        now apply (entityNames_chars name).
      - rewrite (escapeUnit_plain x Hx) in Hc.
        apply list_elem_of_singleton in Hc as ->. now right. }
    destruct Hs as [->|Hs]; [repeat split; discriminate|].
    repeat split; intros ->; discriminate.
  - induction str as [|x str IH]; intros pre post H.
    + destruct pre; discriminate.
    + cbn [flat_map] in H.
      apply app_split in H as [[e1 [e2 [He [-> ->]]]]|[pre' [-> H]]];
        [|now apply IH in H].
      destruct (special x) eqn:Hx.
      * apply escapeUnit_special in Hx as [name [Hn Hx]]. rewrite Hx in He.
        exists name. split; [exact Hn|].
        destruct e1 as [|p e1]; simpl in He; injection He as He.
        -- subst. apply startsWith_spec. now exists (flat_map escapeUnit str).
        -- subst p. exfalso.
           assert (Hin : 0x26 ∈ name)
             by (rewrite H; apply elem_of_app; right; now left).
           apply (entityNames_chars name _ Hn) in Hin. discriminate.
      * rewrite (escapeUnit_plain x Hx) in He.
        destruct e1 as [|p e1]; simpl in He; injection He as He.
        -- subst. discriminate.
        -- destruct e1; discriminate.
Qed.

Lemma escapeUnit_nonempty (c : N) : escapeUnit c <> [].
Proof.
  destruct (escapeUnit_length c) as [H _]. intros E. rewrite E in H.
  simpl in H. lia.
Qed.

(** The escapes of two code units do not begin alike unless the code
    units are the same. *)
Lemma escapeUnit_prefix_free (x y : N) (a b : jsstring) :
  escapeUnit x ++ a = escapeUnit y ++ b -> x = y /\ a = b.
Proof.
  intros H.
  destruct (escapeUnit_cases x)
    as [[-> Hx]|[[-> Hx]|[[-> Hx]|[[-> Hx]|[[-> Hx]|[Hsx Hx]]]]]];
  destruct (escapeUnit_cases y)
    as [[-> Hy]|[[-> Hy]|[[-> Hy]|[[-> Hy]|[[-> Hy]|[Hsy Hy]]]]]];
  rewrite ?Hx, ?Hy in H;
  try (split; [reflexivity | now apply app_inv_head in H]);
  try (exfalso; vm_compute in H; congruence);
  try (exfalso; simpl in H; injection H as H _; subst; discriminate).
  simpl in H. injection H as -> ->. auto.
Qed.

(** X17. Escaping loses nothing: two texts with the same escaped form
    are the same text. *)
Theorem escapeXml_injective (a b : jsstring) :
  escapeXml a = escapeXml b -> a = b.
Proof.
  rewrite !escapeXml_units. revert b.
  induction a as [|x a IH]; intros [|y b] H; cbn [flat_map] in H.
  - reflexivity.
  - symmetry in H. apply app_eq_nil in H as [H _].
    now apply escapeUnit_nonempty in H.
  - apply app_eq_nil in H as [H _]. now apply escapeUnit_nonempty in H.
  - apply escapeUnit_prefix_free in H as [-> H]. f_equal. now apply IH.
Qed.

Lemma escapeXml_injective_witness : js "a<b & c" = js "a<b & c".
Proof.
  apply (escapeXml_injective (js "a<b & c") (js "a<b & c")).
  reflexivity.
Defined.

Lemma escapeXml_safe_witness :
  0x61 <> 0x3C /\ 0x61 <> 0x3E /\ 0x61 <> 0x22 /\ 0x61 <> 0x27.
Proof.
  apply (proj1 (escapeXml_safe (js "<a href='x'>")) 0x61).
  apply (bool_decide_unpack _); vm_compute; exact I.
Defined.

Lemma endsWith_spec (s suffix : jsstring) :
  endsWith s suffix = true <-> exists stem, s = stem ++ suffix.
Proof.
  unfold endsWith. rewrite andb_true_iff, Nat.leb_le, bool_decide_eq_true.
  split.
  - intros [_ H]. exists (take (length s - length suffix) s).
    set (n := (length s - length suffix)%nat) in *.
    rewrite <- H. symmetry. apply take_drop.
  - intros [stem ->]. rewrite length_app. split; [lia|].
    replace (length stem + length suffix - length suffix)%nat
      with (length stem) by lia.
    now rewrite drop_app_length.
Qed.

(** X18. The download name always ends in ".gpx"; a name that already
    does is kept as it is, so naming twice changes nothing more. *)
Theorem downloadName_gpx (filename : jsstring) :
  endsWith (downloadName filename) (js ".gpx") = true /\
  downloadName (downloadName filename) = downloadName filename /\
  (downloadName filename = filename <->
   exists stem, filename = stem ++ js ".gpx").
Proof.
  assert (Hends : endsWith (downloadName filename) (js ".gpx") = true).
  { unfold downloadName. destruct (endsWith filename (js ".gpx")) eqn:H;
      [exact H|]. apply endsWith_spec. now exists filename. }
  split; [exact Hends|]. split.
  - unfold downloadName at 1. now rewrite Hends.
  - rewrite <- endsWith_spec. unfold downloadName.
    destruct (endsWith filename (js ".gpx")) eqn:H; [tauto|].
    split; [|discriminate]. intros E. apply (f_equal length) in E.
    rewrite length_app in E. simpl in E. lia.
Qed.

(** ** Paging through the mountain list *)

Local Open Scope Z_scope.

(** The numbers below are page numbers, page sizes and row counts:
    integers held in doubles.  A sum, difference or product of doubles is
    the double nearest to the exact result (ties to the even mantissa);
    integers up to 2^53 in magnitude are doubles themselves.  [None]
    stands for a result that is not finite. *)
Definition toDouble (x : Z) : option Z :=
  let a := Z.abs x in
  if a <=? 2 ^ 53 then Some x
  else
    let e := Z.log2 a - 52 in
    let q := a / 2 ^ e in
    let r := a mod 2 ^ e in
    let half := 2 ^ (e - 1) in
    let q' := if r <? half then q
              else if half <? r then q + 1
              else if Z.even q then q else q + 1 in
    if q' * 2 ^ e <? 2 ^ 1024 then Some (Z.sgn x * (q' * 2 ^ e)) else None.

(** [const from = (page - 1) * limit], for doubles [page] and [limit]
    that hold integers. *)
Definition rangeFrom (page limit : Z) : option Z :=
  match toDouble (page - 1) with
  | Some d => toDouble (d * limit)
  | None => None
  end.

(** [const to = from + limit - 1] *)
Definition rangeTo (page limit : Z) : option Z :=
  match rangeFrom page limit with
  | Some from =>
    match toDouble (from + limit) with
    | Some s => toDouble (s - 1)
    | None => None
    end
  | None => None
  end.

(** [count || 0] *)
Definition orZero (count : option Z) : Z :=
  match count with
  | Some c => c
  | None => 0
  end.

(** [Math.ceil((count || 0) / limit)] for a positive [limit]. *)
Definition totalPages (count : option Z) (limit : Z) : Z :=
  - ((- orZero count) / limit).




Lemma totalPages_spec (count limit : Z) :
  0 < limit ->
  forall page, page < totalPages (Some count) limit <-> page * limit < count.
Proof.
  intros Hl page. unfold totalPages, orZero.
  pose proof (Z.div_mod (- count) limit ltac:(lia)) as Hdm.
  pose proof (Z.mod_pos_bound (- count) limit Hl) as Hb.
  nia.
Qed.

Lemma toDouble_exact (x : Z) :
  - 2 ^ 53 <= x <= 2 ^ 53 -> toDouble x = Some x.
Proof.
  intros H. unfold toDouble.
  destruct (Z.abs x <=? 2 ^ 53) eqn:E; [reflexivity|].
  apply Z.leb_gt in E. change (2 ^ 53) with 9007199254740992 in *. lia.
Qed.

(** Beyond 2^53 the nearest double is not below 2^53. *)
Lemma toDouble_large (x y : Z) :
  2 ^ 53 < x -> toDouble x = Some y -> 2 ^ 53 <= y.
Proof.
  intros Hx. unfold toDouble.
  assert (Hpos : 0 < x) by (change (2 ^ 53) with 9007199254740992 in Hx; lia).
  rewrite (Z.abs_eq x) by lia.
  destruct (x <=? 2 ^ 53) eqn:E; [apply Z.leb_le in E; lia|]. clear E.
  assert (Hlog : 53 <= Z.log2 x).
  { rewrite <- (Z.log2_pow2 53) by lia. apply Z.log2_le_mono. lia. }
  set (e := Z.log2 x - 52).
  assert (He : 1 <= e) by (unfold e; lia).
  assert (Hpow : 2 ^ 52 * 2 ^ e <= x).
  { rewrite <- Z.pow_add_r by lia. replace (52 + e) with (Z.log2 x)
      by (unfold e; lia).
    apply Z.log2_spec. lia. }
  assert (Hpe : 2 <= 2 ^ e).
  { change 2 with (2 ^ 1) at 1. apply Z.pow_le_mono_r; lia. }
  assert (Hq : 2 ^ 52 <= x / 2 ^ e).
  { apply Z.div_le_lower_bound; [lia|]. lia. }
  set (q := x / 2 ^ e) in *.
  set (q' := if _ <? _ then q else _).
  assert (Hq' : q <= q').
  { unfold q'. destruct (_ <? _); [lia|].
    destruct (_ <? _); [lia|]. destruct (Z.even q); lia. }
  destruct (q' * 2 ^ e <? 2 ^ 1024); [|discriminate].
  intros H. injection H as <-.
  rewrite (Z.sgn_pos x) by lia.
  change (2 ^ 53) with (4503599627370496 * 2).
  change (2 ^ 52) with 4503599627370496 in *. nia.
Qed.

Lemma toDouble_nonneg (x y : Z) :
  0 <= x -> toDouble x = Some y ->
  (x <= 2 ^ 53 /\ y = x) \/ (2 ^ 53 < x /\ 2 ^ 53 <= y).
Proof.
  intros Hx H. destruct (Z_le_gt_dec x (2 ^ 53)) as [Hle|Hgt].
  - left. rewrite toDouble_exact in H.
    + injection H as <-. auto.
    + change (2 ^ 53) with 9007199254740992 in *. lia.
  - right. split; [lia|]. apply (toDouble_large x); [lia | exact H].
Qed.

(** X19. With a positive page size and as long as the numbers stay
    within 2^53, the windows requested for consecutive pages follow one
    another without gap or overlap and each holds [limit] rows; every row
    below [count] lies in the window of one page between 1 and
    [totalPages], and in the window of no other page. *)
Theorem page_windows (limit count : Z) :
  0 < limit ->
  (forall page, 1 <= page -> page * limit <= 2 ^ 53 ->
     exists from to,
       rangeFrom page limit = Some from /\
       rangeTo page limit = Some to /\
       to - from + 1 = limit /\
       rangeFrom (page + 1) limit = Some (to + 1)) /\
  (forall row, 0 <= row < count -> count + limit <= 2 ^ 53 ->
     exists page from to,
       1 <= page <= totalPages (Some count) limit /\
       rangeFrom page limit = Some from /\
       rangeTo page limit = Some to /\
       from <= row <= to /\
       forall other from' to',
         1 <= other ->
         rangeFrom other limit = Some from' ->
         rangeTo other limit = Some to' ->
         from' <= row <= to' -> other = page).
Proof.
  intros Hl.
  assert (Hwindow : forall page, 1 <= page -> page * limit <= 2 ^ 53 ->
            rangeFrom page limit = Some ((page - 1) * limit) /\
            rangeTo page limit = Some (page * limit - 1)).
  { intros page Hp Hsafe. unfold rangeTo, rangeFrom.
    assert (H53 : 0 < 2 ^ 53) by (apply Z.pow_pos_nonneg; lia).
    rewrite (toDouble_exact (page - 1)) by nia.
    rewrite (toDouble_exact ((page - 1) * limit)) by nia.
    rewrite (toDouble_exact ((page - 1) * limit + limit)) by nia.
    rewrite toDouble_exact by nia.
    split; f_equal; lia. }
  split.
  - intros page Hp Hsafe. destruct (Hwindow page Hp Hsafe) as [Hf Ht].
    exists ((page - 1) * limit), (page * limit - 1).
    repeat split; [exact Hf | exact Ht | lia |].
    unfold rangeFrom.
    assert (H53 : 0 < 2 ^ 53) by (apply Z.pow_pos_nonneg; lia).
    rewrite (toDouble_exact (page + 1 - 1)) by nia.
    rewrite toDouble_exact by nia. f_equal. lia.
  - intros row Hrow Hsafe.
    pose proof (Z.div_mod row limit ltac:(lia)) as Hdm.
    pose proof (Z.mod_pos_bound row limit Hl) as Hb.
    pose proof (Z.div_pos row limit ltac:(lia) Hl) as Hq.
    set (page := row / limit + 1) in *.
    assert (Hpage : 1 <= page /\ page * limit <= 2 ^ 53) by (unfold page; nia).
    destruct (Hwindow page (proj1 Hpage) (proj2 Hpage)) as [Hf Ht].
    exists page, ((page - 1) * limit), (page * limit - 1).
    repeat split; try assumption; try (unfold page; nia).
    + assert (H : row / limit < totalPages (Some count) limit)
        by (apply totalPages_spec; [exact Hl | nia]).
      unfold page. lia.
    + intros other from' to' Ho Hfrom Hto [Hlo Hhi].
      unfold rangeTo in Hto. rewrite Hfrom in Hto. unfold rangeFrom in Hfrom.
      destruct (toDouble (other - 1)) as [d|] eqn:Hd; [|discriminate].
      assert (Hd0 : 0 <= other - 1) by lia.
      assert (H53 : 2 ^ 53 = 9007199254740992) by reflexivity.
      destruct (toDouble_nonneg _ _ Hd0 Hd) as [[Hd1 ->]|[Hd1 Hd2]].
      * assert (Hf0 : 0 <= (other - 1) * limit) by nia.
        destruct (toDouble_nonneg _ _ Hf0 Hfrom) as [[Hf1 ->]|[Hf1 Hf2]];
          [|lia].
        rewrite (toDouble_exact ((other - 1) * limit + limit)) in Hto by nia.
        rewrite toDouble_exact in Hto by nia. injection Hto as <-.
        unfold page. nia.
      * assert (Hf0 : 0 <= d * limit) by nia.
        destruct (toDouble_nonneg _ _ Hf0 Hfrom) as [[Hf1 ->]|[Hf1 Hf2]];
          [nia | lia].
Qed.

Lemma page_windows_witness :
  exists from to,
    rangeFrom 3 12 = Some from /\ rangeTo 3 12 = Some to /\
    to - from + 1 = 12 /\ rangeFrom (3 + 1) 12 = Some (to + 1).
Proof.
  apply (proj1 (page_windows 12 100 ltac:(lia)) 3); vm_compute; discriminate.
Defined.



Local Close Scope Z_scope.

(** ** The list of regions *)

(** A row of the [select('region')] query. *)
Record RegionRow := { region : jsstring }.

(** [[...new Set(data?.map((m) => m.region) || [])]]; [data] is [null]
    when the query returned nothing. *)
Definition getRegions (data : option (list RegionRow)) : list jsstring :=
  fold_left setAdd (List.map region (default [] data)) [].

Lemma fold_setAdd (l acc : list jsstring) :
  NoDup acc ->
  exists k,
    fold_left setAdd l acc = acc ++ k /\ sublist k l /\ NoDup (acc ++ k) /\
    forall x, x ∈ acc ++ k <-> x ∈ acc \/ x ∈ l.
Proof.
  revert acc. induction l as [|r l IH]; intros acc Hacc; simpl.
  - exists []. rewrite app_nil_r. repeat split; [constructor | exact Hacc | |].
    + now left.
    + intros [H|H]; [exact H | inversion H].
  - destruct (IH (setAdd acc r) (setAdd_NoDup acc r Hacc))
      as [k [Hfold [Hsub [Hnd Hmem]]]].
    unfold setAdd in *. destruct (decide (r ∈ acc)) as [Hin|Hout].
    + exists k. repeat split; [exact Hfold | now apply sublist_cons | exact Hnd | |].
      * intros H. apply Hmem in H as [H|H]; [now left | right; now right].
      * intros [H|H]; apply Hmem; [now left|].
        apply elem_of_cons in H as [->|H]; [now left | now right].
    + exists (r :: k). rewrite <- app_assoc in Hfold, Hnd, Hmem. simpl in *.
      repeat split; [exact Hfold | now apply sublist_skip | exact Hnd | |].
      * intros H. apply Hmem in H as [H|H]; [|right; now right].
        apply elem_of_app in H as [H|H]; [now left|].
        apply list_elem_of_singleton in H as ->. right. now left.
      * intros [H|H]; apply Hmem.
        -- left. apply elem_of_app. now left.
        -- apply elem_of_cons in H as [->|H]; [left | now right].
           apply elem_of_app. right. now left.
Qed.

Lemma setAdd_NoDup_fresh (acc : list jsstring) (r : jsstring) :
  NoDup acc -> r ∉ acc -> NoDup (acc ++ [r]).
Proof.
  intros Hnd Hout. apply NoDup_app. split; [exact Hnd|].
  split; [|apply NoDup_singleton].
  intros x Hx Hr. apply list_elem_of_singleton in Hr as ->. contradiction.
Qed.

(** Of two elements added by the fold, the one standing first was met
    first: where it first occurs, the other has not occurred yet. *)
Lemma fold_setAdd_order (l acc : list jsstring) (i j : nat)
    (r1 r2 : jsstring) :
  NoDup acc -> (length acc <= i)%nat -> (i < j)%nat ->
  fold_left setAdd l acc !! i = Some r1 ->
  fold_left setAdd l acc !! j = Some r2 ->
  exists before after,
    l = before ++ r1 :: after /\
    (r1 ∉ acc ++ before) /\ (r2 ∉ acc ++ before).
Proof.
  revert acc. induction l as [|r l IH]; intros acc Hnd Hi Hij H1 H2.
  - simpl in H1. apply lookup_lt_Some in H1. lia.
  - cbn [fold_left] in H1, H2.
    destruct (fold_setAdd l (setAdd acc r) (setAdd_NoDup acc r Hnd))
      as [k [Hfold [_ [Hres _]]]].
    unfold setAdd in *. destruct (decide (r ∈ acc)) as [Hin|Hout].
    + destruct (IH acc Hnd Hi Hij H1 H2) as [before [after [-> [Hn1 Hn2]]]].
      exists (r :: before), after. split; [reflexivity|].
      rewrite !elem_of_app, !elem_of_cons in *.
      split; intros [H|[->|H]]; tauto.
    + destruct (decide (i = length acc)) as [->|Hne].
      * assert (Hr1 : r1 = r).
        { rewrite Hfold, <- app_assoc in H1. cbn [app] in H1.
          rewrite list_lookup_middle in H1 by reflexivity. congruence. }
        subst r1. exists [], l. rewrite app_nil_r.
        repeat split; [exact Hout|].
        intros Hr2. rewrite Hfold in H2.
        assert (Hj : (acc ++ [r]) !! j = None)
          by (apply lookup_ge_None; rewrite length_app; simpl; lia).
        rewrite lookup_app_r in H2 by (rewrite length_app; simpl; lia).
        apply list_elem_of_lookup_2 in H2.
        apply NoDup_app in Hres as [_ [Hdis _]].
        apply (Hdis r2); [|exact H2]. apply elem_of_app. now left.
      * assert (Hi' : (length (acc ++ [r]) <= i)%nat)
          by (rewrite length_app; simpl; lia).
        destruct (IH (acc ++ [r]) (setAdd_NoDup_fresh acc r Hnd Hout)
                     Hi' Hij H1 H2)
          as [before [after [-> [Hn1 Hn2]]]].
        exists (r :: before), after. split; [reflexivity|].
        rewrite <- !app_assoc in Hn1, Hn2. auto.
Qed.

(** X21. The list of regions holds each region of the rows once and
    nothing else, in the order of first appearance: of two regions of the
    list, the one standing first occurs in the rows before the other
    occurs at all.  The list is empty when the query returned no data. *)
Theorem getRegions_unique (data : option (list RegionRow)) :
  NoDup (getRegions data) /\
  sublist (getRegions data) (List.map region (default [] data)) /\
  (forall r, r ∈ getRegions data <->
             exists row, row ∈ default [] data /\ region row = r) /\
  (forall i j r1 r2,
     (i < j)%nat ->
     getRegions data !! i = Some r1 -> getRegions data !! j = Some r2 ->
     exists before after,
       List.map region (default [] data) = before ++ r1 :: after /\
       (r1 ∉ before) /\ (r2 ∉ before)) /\
  getRegions None = [].
Proof.
  unfold getRegions.
  destruct (fold_setAdd (List.map region (default [] data)) [] NoDup_nil_2)
    as [k [Hfold [Hsub [Hnd Hmem]]]].
  split; [|split; [|split; [|split]]].
  - now rewrite Hfold.
  - now rewrite Hfold.
  - rewrite Hfold. intros r. split.
    + intros H. apply Hmem in H as [H|H]; [inversion H|].
      apply list_elem_of_In, in_map_iff in H as [row [Hr Hin]].
      exists row. split; [now apply list_elem_of_In | exact Hr].
    + intros [row [Hin Hr]]. apply Hmem. right.
      apply list_elem_of_In, in_map_iff. exists row.
      split; [exact Hr | now apply list_elem_of_In].
  - intros i j r1 r2 Hij H1 H2.
    apply (fold_setAdd_order _ [] i j r1 r2 NoDup_nil_2 ltac:(simpl; lia)
             Hij H1 H2).
  - reflexivity.
Qed.

Lemma getRegions_unique_witness :
  exists before after,
    List.map region (default [] (Some [ {| region := js "강원도" |};
                                        {| region := js "경기도" |};
                                        {| region := js "강원도" |} ]))
    = before ++ js "강원도" :: after /\
    (js "강원도" ∉ before) /\ (js "경기도" ∉ before).
Proof.
  apply (proj1 (proj2 (proj2 (proj2 (getRegions_unique
           (Some [ {| region := js "강원도" |}; {| region := js "경기도" |};
                   {| region := js "강원도" |} ])))))
         0%nat 1%nat (js "강원도") (js "경기도")).
  - lia.
  - vm_compute. reflexivity.
  - vm_compute. reflexivity.
Defined.

(** ** The label handed to the trail map *)

(** [a || b] on optional strings. *)
Definition orElse (a b : option jsstring) : option jsstring :=
  if truthy a then a else b.

(** [mountainInfo?.certification_point || mountain.certification_point
    || undefined] of the detail page; [infoLabel] is absent when no
    [mountainInfo] was found. *)
Definition pageCertificationPoint (infoLabel ownLabel : option jsstring)
  : option jsstring :=
  orElse (orElse infoLabel ownLabel) None.

(** X22. The detail page never hands the empty string to the map: the
    label is the first non-empty one of the two sources, and the keyword
    set is empty exactly when both are absent or empty. *)
Theorem pageCertificationPoint_spec (infoLabel ownLabel : option jsstring) :
  pageCertificationPoint infoLabel ownLabel <> Some [] /\
  (truthy infoLabel = true ->
   pageCertificationPoint infoLabel ownLabel = infoLabel) /\
  (truthy infoLabel = false -> truthy ownLabel = true ->
   pageCertificationPoint infoLabel ownLabel = ownLabel) /\
  (extractCertKeywords (pageCertificationPoint infoLabel ownLabel) = [] <->
   truthy infoLabel = false /\ truthy ownLabel = false).
Proof.
  assert (Hne : forall label, truthy label = true ->
                              extractCertKeywords label <> []).
  { intros [[|c s]|] Ht; try discriminate. intros E.
    pose proof (summit_in_keywords (c :: s) ltac:(discriminate)) as Hin.
    rewrite E in Hin. inversion Hin. }
  destruct infoLabel as [[|c s]|], ownLabel as [[|d t]|];
    cbn [pageCertificationPoint orElse truthy];
    repeat split; try discriminate; try reflexivity;
    try (intros E; now apply Hne in E);
    try (intros [E1 E2]; discriminate);
    exfalso;
    match goal with
    | H : extractCertKeywords _ = [] |- _ => now apply Hne in H
    end.
Qed.

Lemma pageCertificationPoint_spec_witness :
  pageCertificationPoint (Some []) (Some (js "천왕봉")) = Some (js "천왕봉").
Proof.
  apply (proj1 (proj2 (proj2 (pageCertificationPoint_spec
                                (Some []) (Some (js "천왕봉")))))).
  - reflexivity.
  - reflexivity.
Defined.

(** ** The title of the encyclopedia link *)

(** [mountain.name.split('(')[0].trim().replace(/ /g, '_')], the text
    handed to [encodeURIComponent]. *)
Definition wikiTitle (name : jsstring) : jsstring :=
  replaceAll (js " ") (js "_") (trim (baseName name)).

Lemma trimStart_incl (w : jsstring) (c : N) : c ∈ trimStart w -> c ∈ w.
Proof.
  induction w as [|x w IH]; simpl; [trivial|].
  destruct (is_ws x); [|trivial]. intros H. right. now apply IH.
Qed.

Lemma trim_incl (w : jsstring) (c : N) : c ∈ trim w -> c ∈ w.
Proof.
  unfold trim. intros H.
  apply trimStart_incl.
  apply list_elem_of_In, in_rev, list_elem_of_In.
  apply trimStart_incl.
  now apply list_elem_of_In, in_rev, list_elem_of_In.
Qed.

(** X23. The link title contains neither a space nor an opening
    parenthesis and is as long as the trimmed base name; a name without
    white space and parenthesis is its own title. *)
Theorem wikiTitle_spec (name : jsstring) :
  (0x20 ∉ wikiTitle name) /\ (0x28 ∉ wikiTitle name) /\
  length (wikiTitle name) = length (trim (baseName name)) /\
  (forallb (fun c => negb (is_ws c) && negb (c =? 0x28)) name = true ->
   wikiTitle name = name).
Proof.
  unfold wikiTitle. change (js " ") with [0x20]. change (js "_") with [0x5F].
  rewrite replaceAll_unit.
  set (under := fun c : N => if c =? 0x20 then [0x5F] else [c]).
  assert (Hmem : forall w c, c ∈ flat_map under w ->
                   c <> 0x20 /\ (c = 0x5F \/ c ∈ w)).
  { intros w c H. apply list_elem_of_In, in_flat_map in H as [x [Hx Hc]].
    apply list_elem_of_In in Hx. unfold under in Hc.
    destruct (x =? 0x20) eqn:E; destruct Hc as [<-|[]].
    - split; [discriminate | now left].
    - apply N.eqb_neq in E. auto. }
  assert (Hlen : forall w, length (flat_map under w) = length w).
  { induction w as [|x w IH]; [reflexivity|]. cbn [flat_map].
    rewrite length_app, IH. unfold under. now destruct (x =? 0x20). }
  repeat split.
  - intros H. now apply Hmem in H as [H _].
  - intros H. apply Hmem in H as [_ [H|H]]; [discriminate|].
    apply trim_incl in H. now apply baseName_split in H.
  - apply Hlen.
  - intros Hall. rewrite forallb_forall in Hall.
    assert (Hbase : baseName name = name).
    { rewrite <- (app_nil_r name) at 1. apply baseName_unique; [|now left].
      intros Hin. apply list_elem_of_In, Hall in Hin. discriminate. }
    assert (Hclean : clean name).
    { apply Forall_forall. intros c Hc. apply list_elem_of_In, Hall in Hc.
      apply andb_true_iff in Hc as [Hc _]. now apply negb_true_iff in Hc. }
    rewrite Hbase, (trim_clean name Hclean).
    clear Hbase. induction Hclean as [|c w Hc Hw IH]; [reflexivity|].
    cbn [flat_map]. rewrite IH.
    + unfold under. destruct (c =? 0x20) eqn:E; [|reflexivity].
      apply N.eqb_eq in E. subst. discriminate.
    + intros x Hx. apply Hall. now right.
Qed.

Lemma wikiTitle_spec_witness : wikiTitle (js "지리산") = js "지리산".
Proof.
  apply (proj2 (proj2 (proj2 (wikiTitle_spec (js "지리산"))))).
  vm_compute. reflexivity.
Defined.

(** ** The filter store *)

Module FilterStore.

Inductive DifficultyLevel := easy | moderate | hard | expert.

(** [MountainFilters]; [None] is [null] for the three selectors and an
    absent [search]. *)
Record MountainFilters := {
  search : option jsstring;
  region : option jsstring;
  difficulty : option DifficultyLevel;
  timeCategory : option jsstring
}.

Record FilterState := {
  filters : MountainFilters;
  page : Z
}.

Definition initialFilters : MountainFilters :=
  {| search := Some []; region := None; difficulty := None;
     timeCategory := None |}.

Definition initialState : FilterState :=
  {| filters := initialFilters; page := 1 |}.

Definition setSearch (s : jsstring) (state : FilterState) : FilterState :=
  {| filters := {| search := Some s;
                   region := region (filters state);
                   difficulty := difficulty (filters state);
                   timeCategory := timeCategory (filters state) |};
     page := 1 |}.

Definition setRegion (r : option jsstring) (state : FilterState)
  : FilterState :=
  {| filters := {| search := search (filters state);
                   region := r;
                   difficulty := difficulty (filters state);
                   timeCategory := timeCategory (filters state) |};
     page := 1 |}.

Definition setDifficulty (d : option DifficultyLevel) (state : FilterState)
  : FilterState :=
  {| filters := {| search := search (filters state);
                   region := region (filters state);
                   difficulty := d;
                   timeCategory := timeCategory (filters state) |};
     page := 1 |}.

Definition setTimeCategory (t : option jsstring) (state : FilterState)
  : FilterState :=
  {| filters := {| search := search (filters state);
                   region := region (filters state);
                   difficulty := difficulty (filters state);
                   timeCategory := t |};
     page := 1 |}.

Definition setPage (p : Z) (state : FilterState) : FilterState :=
  {| filters := filters state; page := p |}.

Definition resetFilters (state : FilterState) : FilterState :=
  {| filters := initialFilters; page := 1 |}.

(** A call of one of the functions of the store. *)
Inductive Call :=
| SetSearch (s : jsstring)
| SetRegion (r : option jsstring)
| SetDifficulty (d : option DifficultyLevel)
| SetTimeCategory (t : option jsstring)
| SetPage (p : Z)
| ResetFilters.

Definition call (c : Call) (state : FilterState) : FilterState :=
  match c with
  | SetSearch s => setSearch s state
  | SetRegion r => setRegion r state
  | SetDifficulty d => setDifficulty d state
  | SetTimeCategory t => setTimeCategory t state
  | SetPage p => setPage p state
  | ResetFilters => resetFilters state
  end.

Definition callAll (calls : list Call) (state : FilterState) : FilterState :=
  fold_left (fun s c => call c s) calls state.

(** The filter a call writes, if it writes one filter only. *)
Definition written (c : Call) : option nat :=
  match c with
  | SetSearch _ => Some 0%nat
  | SetRegion _ => Some 1%nat
  | SetDifficulty _ => Some 2%nat
  | SetTimeCategory _ => Some 3%nat
  | SetPage _ | ResetFilters => None
  end.

Definition isSetPage (c : Call) : bool :=
  match c with
  | SetPage _ => true
  | _ => false
  end.

(** X24. After any sequence of calls the page is 1 unless the last call
    was [setPage]; two calls that set different filters give the same
    state in either order; of two calls that set the same filter the
    later one wins. *)
Theorem store_calls (calls : list Call) (a b : Call) (state : FilterState) :
  (isSetPage a = false -> page (callAll (calls ++ [a]) state) = 1%Z) /\
  (forall i j, written a = Some i -> written b = Some j -> i <> j ->
     call a (call b state) = call b (call a state)) /\
  (forall i, written a = Some i -> written b = Some i ->
     call a (call b state) = call a state).
Proof.
  split; [|split].
  - intros Ha. unfold callAll. rewrite fold_left_app. simpl.
    destruct a; try reflexivity. discriminate.
  - intros i j Ha Hb Hne.
    destruct a, b; simpl in Ha, Hb; try discriminate;
      try reflexivity; congruence.
  - intros i Ha Hb.
    destruct a, b; simpl in Ha, Hb; try discriminate;
      try reflexivity; congruence.
Qed.

Lemma store_calls_witness :
  page (callAll ([SetPage 3; SetRegion (Some (js "강원도"))] ++ [SetSearch (js "설악")])
                initialState) = 1%Z.
Proof.
  apply (proj1 (store_calls [SetPage 3; SetRegion (Some (js "강원도"))]
                  (SetSearch (js "설악")) ResetFilters initialState)).
  reflexivity.
Defined.

End FilterStore.

(** ** Matching never runs across the boundary of name and detail *)

(** X25. When no lower-cased keyword contains white space and
    lower-casing acts on name and detail separately, a course matches a
    non-empty keyword set exactly when some keyword occurs in the
    lower-cased name or in the lower-cased detail. *)
Theorem matches_name_or_detail (toLowerCase : jsstring -> jsstring)
    (courseName detail : jsstring) (keywords : list jsstring) :
  keywords <> [] ->
  forallb (fun kw => forallb (fun c => negb (is_ws c)) (toLowerCase kw))
          keywords = true ->
  toLowerCase (courseName ++ js " " ++ detail)
  = toLowerCase courseName ++ js " " ++ toLowerCase detail ->
  matchesCertPoint toLowerCase courseName detail keywords
  = existsb (fun kw => includes (toLowerCase courseName) (toLowerCase kw)
                       || includes (toLowerCase detail) (toLowerCase kw))
            keywords.
Proof.
  intros Hne Hkws Hlow. unfold matchesCertPoint.
  destruct keywords as [|k keywords]; [congruence|]. cbn [length Nat.eqb].
  cbv zeta. rewrite Hlow. clear Hne.
  induction (k :: keywords) as [|kw kws IH]; [reflexivity|].
  cbn [forallb] in Hkws. apply andb_true_iff in Hkws as [Hkw Hkws].
  cbn [existsb]. rewrite (IH Hkws). f_equal.
  apply includes_across; [discriminate | reflexivity|].
  now apply clean_forallb.
Qed.

Lemma matches_name_or_detail_witness :
  matchesCertPoint toLowerCaseLatin (js "백록") (js "담")
                   (extractCertKeywords (Some (js "백록담")))
  = existsb (fun kw => includes (toLowerCaseLatin (js "백록")) (toLowerCaseLatin kw)
                       || includes (toLowerCaseLatin (js "담")) (toLowerCaseLatin kw))
            (extractCertKeywords (Some (js "백록담"))).
Proof.
  apply (matches_name_or_detail toLowerCaseLatin (js "백록") (js "담")
           (extractCertKeywords (Some (js "백록담")))).
  - vm_compute. discriminate.
  - vm_compute. reflexivity.
  - vm_compute. reflexivity.
Defined.

(** ** The short region label *)

(** [region.replace(/A|B|C/g, '')] for literal alternatives: at each
    position the first alternative that matches there is removed, and the
    search goes on behind it.  [skip] counts the code units of a removed
    occurrence still to be passed over. *)
Fixpoint removeFrom (words : list jsstring) (skip : nat) (text : jsstring)
  : jsstring :=
  match text with
  | [] => []
  | c :: rest =>
    match skip with
    | S k => removeFrom words k rest
    | O =>
      match List.find (startsWith text) words with
      | Some word => removeFrom words (length word - 1) rest
      | None => c :: removeFrom words 0 rest
      end
    end
  end.

(** [region.replace(/특별자치|광역|특별/g, '')] of the region buttons. *)
Definition regionLabel (region : jsstring) : jsstring :=
  removeFrom [js "특별자치"; js "광역"; js "특별"] 0 region.

Lemma removeFrom_sublist (words : list jsstring) (skip : nat)
    (text : jsstring) :
  sublist (removeFrom words skip text) text.
Proof.
  revert skip. induction text as [|c rest IH]; intros skip; simpl;
    [constructor|].
  destruct skip as [|k]; [|apply sublist_cons, IH].
  destruct (List.find _ words); [apply sublist_cons, IH|].
  apply sublist_skip, IH.
Qed.

Lemma removeFrom_keeps (words : list jsstring) (text : jsstring) :
  (forall word, word ∈ words -> includes text word = false) ->
  removeFrom words 0 text = text.
Proof.
  induction text as [|c rest IH]; intros Hno; [reflexivity|].
  cbn [removeFrom].
  destruct (List.find (startsWith (c :: rest)) words) as [word|] eqn:Hfind.
  - apply find_some in Hfind as [Hin Hs]. apply list_elem_of_In, Hno in Hin.
    cbn [includes] in Hin. rewrite Hs in Hin. discriminate.
  - f_equal. apply IH. intros word Hin. apply Hno in Hin.
    cbn [includes] in Hin. now apply orb_false_iff in Hin as [_ Hin].
Qed.

Lemma removeFrom_changes (words : list jsstring) (text : jsstring) :
  removeFrom words 0 text = text ->
  forall word, word ∈ words -> word <> [] -> includes text word = false.
Proof.
  induction text as [|c rest IH]; intros Heq word Hin Hne.
  - destruct word; [congruence | reflexivity].
  - cbn [removeFrom] in Heq.
    destruct (List.find (startsWith (c :: rest)) words) as [w|] eqn:Hfind.
    + exfalso. pose proof (removeFrom_sublist words (length w - 1) rest) as Hs.
      rewrite Heq in Hs. apply sublist_length in Hs. simpl in Hs. lia.
    + injection Heq as Heq. cbn [includes].
      rewrite (IH Heq word Hin Hne), orb_false_r.
      apply list_elem_of_In in Hin. apply (find_none _ _ Hfind) in Hin.
      exact Hin.
Qed.

(** X26. The short label is the region name with code units left out,
    in the same order; it is the region name itself exactly when the name
    contains neither "특별" nor "광역". *)
Theorem regionLabel_spec (region : jsstring) :
  sublist (regionLabel region) region /\
  (regionLabel region = region <->
   includes region (js "특별") = false /\ includes region (js "광역") = false).
Proof.
  unfold regionLabel. split; [apply removeFrom_sublist|]. split.
  - intros H. split; apply (removeFrom_changes _ _ H).
    + apply (bool_decide_unpack _); vm_compute; exact I.
    + vm_compute; discriminate.
    + apply (bool_decide_unpack _); vm_compute; exact I.
    + vm_compute; discriminate.
  - intros [H1 H2]. apply removeFrom_keeps. intros word Hin.
    repeat (apply elem_of_cons in Hin as [->|Hin]); try assumption;
      [|inversion Hin].
    destruct (includes region (js "특별자치")) eqn:H; [|reflexivity].
    apply includes_spec in H as [pre [post ->]].
    assert (Hocc : includes (pre ++ js "특별자치" ++ post) (js "특별") = true).
    { apply includes_spec. exists pre, (js "자치" ++ post). reflexivity. }
    congruence.
Qed.

Example regionLabel_samples :
  regionLabel (js "서울특별시") = js "서울시" /\
  regionLabel (js "제주특별자치도") = js "제주도" /\
  regionLabel (js "부산광역시") = js "부산시" /\
  regionLabel (js "강원도") = js "강원도".
Proof. vm_compute. repeat split. Qed.

Lemma hidden_note_counts_witness : (0 < 1)%nat.
Proof.
  apply (proj1 (proj2 (hidden_note_counts toLowerCaseLatin
                         (Some (js "서석대 정상석/ 인왕봉 정상석"))
                         mudeungsanCourses)) 1%nat).
  vm_compute. reflexivity.
Defined.

(** ** The duration of a trail *)

Local Open Scope Z_scope.

(** The duration shown for a trail, in hours and minutes:
    [Math.floor(m / 60)] and [m % 60], rendered when
    [trail.estimated_time_minutes] is neither [null] nor 0.  The column
    holds integers; [%] takes the sign of the dividend. *)
Definition durationShown (estimated_time_minutes : option Z)
  : option (Z * Z) :=
  match estimated_time_minutes with
  | None => None
  | Some m =>
    if m =? 0 then None else Some (m / 60, Z.rem m 60)
  end.

(** X27. For a positive number of minutes the duration is shown, its
    hours and minutes add up to the number of minutes, and the minutes
    are below 60. *)
Theorem durationShown_spec (m : Z) :
  0 < m ->
  exists hours minutes,
    durationShown (Some m) = Some (hours, minutes) /\
    hours * 60 + minutes = m /\ 0 <= hours /\ 0 <= minutes < 60.
Proof.
  intros Hm. unfold durationShown.
  destruct (m =? 0) eqn:E; [apply Z.eqb_eq in E; lia|].
  exists (m / 60), (Z.rem m 60). split; [reflexivity|].
  rewrite Z.rem_mod_nonneg by lia.
  pose proof (Z.div_mod m 60 ltac:(lia)) as Hdm.
  pose proof (Z.mod_pos_bound m 60 ltac:(lia)) as Hb.
  pose proof (Z.div_pos m 60 ltac:(lia) ltac:(lia)) as Hq.
  lia.
Qed.

Lemma durationShown_spec_witness :
  exists hours minutes,
    durationShown (Some 135) = Some (hours, minutes) /\
    hours * 60 + minutes = 135 /\ 0 <= hours /\ 0 <= minutes < 60.
Proof.
  apply (durationShown_spec 135). lia.
Defined.

Local Close Scope Z_scope.

(** * Keyword extraction as it runs: objects and their state

    [extractCertKeywords] creates regular expressions, a set and arrays
    and changes some of them in place ([replace] writes [lastIndex],
    [add] and [push] extend the set and the array).  Here the function is
    written again statement by statement over a store of objects, next to
    the state of the component with its course data, to show what of the
    world it reads and writes. *)

Module Store.

(** The three regular expressions of the function. *)
Inductive Pattern :=
| Literal (word : jsstring)
| SeparatorRun
| SuffixAtEnd.

Inductive Obj :=
| RegExpObj (pattern : Pattern) (global : bool) (lastIndex : nat)
| SetObj (elems : list jsstring)
| ArrayObj (elems : list jsstring).

(** The objects alive, addressed by position, and the state of the
    [TrailMap] component (course data and selection). *)
Record World := {
  objects : list Obj;
  component : TrailMapState
}.

(** A computation on the world; [None] is a [TypeError] (an object of the
    wrong kind) or a use of a regular expression outside those above. *)
Definition M (A : Type) : Type := World -> option (A * World).

Definition ret {A : Type} (a : A) : M A := fun w => Some (a, w).

Definition bind {A B : Type} (m : M A) (k : A -> M B) : M B :=
  fun w =>
    match m w with
    | Some (a, w') => k a w'
    | None => None
    end.

Definition fail {A : Type} : M A := fun _ => None.

Notation "'let!' x ':=' m 'in' k" := (bind m (fun x => k))
  (at level 10, x name, m at level 100, k at level 200).

Definition alloc (o : Obj) : M nat :=
  fun w => Some (length (objects w),
                 {| objects := objects w ++ [o]; component := component w |}).

Definition load (ref : nat) : M Obj :=
  fun w =>
    match objects w !! ref with
    | Some o => Some (o, w)
    | None => None
    end.

Definition store (ref : nat) (o : Obj) : M unit :=
  fun w =>
    match objects w !! ref with
    | Some _ => Some (tt, {| objects := <[ref := o]> (objects w);
                             component := component w |})
    | None => None
    end.

(** [new RegExp(..)] and a regular expression literal: a new object with
    [lastIndex] 0. *)
Definition newRegExp (pattern : Pattern) (global : bool) : M nat :=
  alloc (RegExpObj pattern global 0).

(** [text.replace(re, rep)] with a global expression of a literal word:
    [lastIndex] is set to 0 before the search and is 0 after it. *)
Definition replace (text : jsstring) (re : nat) (rep : jsstring)
  : M jsstring :=
  let! o := load re in
  match o with
  | RegExpObj (Literal word) true _ =>
    let! _ := store re (RegExpObj (Literal word) true 0) in
    ret (replaceAll word rep text)
  | _ => fail
  end.

(** [text.split(re)]: the search runs on a copy of the expression; the
    pieces are a new array. *)
Definition splitBy (text : jsstring) (re : nat) : M nat :=
  let! o := load re in
  match o with
  | RegExpObj SeparatorRun _ _ => alloc (ArrayObj (split text))
  | _ => fail
  end.

(** [re.test(kw)]: without the [g] flag [lastIndex] is neither read nor
    written; with it the search starts at [lastIndex], which is then set
    to the end of the match, or to 0 when there is none. *)
Definition test (re : nat) (kw : jsstring) : M bool :=
  let! o := load re in
  match o with
  | RegExpObj SuffixAtEnd false _ => ret (endsWithSuffix kw)
  | RegExpObj SuffixAtEnd true lastIndex =>
    if (lastIndex <? length kw)%nat && endsWithSuffix kw
    then let! _ := store re (RegExpObj SuffixAtEnd true (length kw)) in
         ret true
    else let! _ := store re (RegExpObj SuffixAtEnd true 0) in
         ret false
  | _ => fail
  end.

Definition newArray (elems : list jsstring) : M nat := alloc (ArrayObj elems).

(** The elements a [for ... of] loop goes through. *)
Definition arrayElems (arr : nat) : M (list jsstring) :=
  let! o := load arr in
  match o with
  | ArrayObj elems => ret elems
  | _ => fail
  end.

Definition arrayMap (f : jsstring -> jsstring) (arr : nat) : M nat :=
  let! elems := arrayElems arr in alloc (ArrayObj (List.map f elems)).

Definition arrayFilter (p : jsstring -> bool) (arr : nat) : M nat :=
  let! elems := arrayElems arr in alloc (ArrayObj (List.filter p elems)).

Definition arrayIncludes (arr : nat) (x : jsstring) : M bool :=
  let! elems := arrayElems arr in ret (bool_decide (x ∈ elems)).

Definition arrayPush (arr : nat) (x : jsstring) : M unit :=
  let! elems := arrayElems arr in store arr (ArrayObj (elems ++ [x])).

Definition newSet : M nat := alloc (SetObj []).

Definition setAddTo (set : nat) (kw : jsstring) : M unit :=
  let! o := load set in
  match o with
  | SetObj elems => store set (SetObj (setAdd elems kw))
  | _ => fail
  end.

(** [Array.from(set)] *)
Definition arrayFrom (set : nat) : M nat :=
  let! o := load set in
  match o with
  | SetObj elems => alloc (ArrayObj elems)
  | _ => fail
  end.

(** The loop over the stop words, [cleaned] being reassigned. *)
Fixpoint forStopWords (words : list jsstring) (cleaned : jsstring)
  : M jsstring :=
  match words with
  | [] => ret cleaned
  | word :: rest =>
    let! re := newRegExp (Literal word) true in
    let! cleaned' := replace cleaned re (js " ") in
    forStopWords rest cleaned'
  end.

(** The body of the loop over the base keywords. *)
Definition expandBody (expandedKeywords : nat) (kw : jsstring) : M unit :=
  let! _ := setAddTo expandedKeywords kw in
  if (3 <=? length kw)%nat then
    let! re := newRegExp SuffixAtEnd false in
    let! ends := test re kw in
    if ends then
      let shortened := slice_0_m1 kw in
      if (2 <=? length shortened)%nat
      then setAddTo expandedKeywords shortened
      else ret tt
    else ret tt
  else ret tt.

Fixpoint forKeywords (baseKeywords : list jsstring) (expandedKeywords : nat)
  : M unit :=
  match baseKeywords with
  | [] => ret tt
  | kw :: rest =>
    let! _ := expandBody expandedKeywords kw in
    forKeywords rest expandedKeywords
  end.

(** [extractCertKeywords] over the store; the result is the reference of
    the array returned. *)
Definition extractCertKeywordsRun (certPoint : option jsstring) : M nat :=
  if negb (truthy certPoint) then newArray []
  else
    let! stopWordsArr := newArray stopWords in
    let! words := arrayElems stopWordsArr in
    let! cleaned := forStopWords words (orEmpty certPoint) in
    let! separators := newRegExp SeparatorRun false in
    let! pieces := splitBy cleaned separators in
    let! trimmed := arrayMap trim pieces in
    let! baseKeywords :=
      arrayFilter (fun w => (2 <=? length w)%nat) trimmed in
    let! expandedKeywords := newSet in
    let! base := arrayElems baseKeywords in
    let! _ := forKeywords base expandedKeywords in
    let! keywords := arrayFrom expandedKeywords in
    let! has := arrayIncludes keywords summit in
    let! _ := (if has then ret tt else arrayPush keywords summit) in
    ret keywords.


(** ** What a run does *)

Definition world (h : list Obj) (c : TrailMapState) : World :=
  {| objects := h; component := c |}.

Lemma bind_run {A B : Type} (m : M A) (k : A -> M B) (w w' : World) (a : A) :
  m w = Some (a, w') -> bind m k w = k a w'.
Proof. intros H. unfold bind. now rewrite H. Qed.

Lemma alloc_run (o : Obj) (h : list Obj) (c : TrailMapState) :
  alloc o (world h c) = Some (length h, world (h ++ [o]) c).
Proof. reflexivity. Qed.

Lemma load_run (pre post : list Obj) (o : Obj) (c : TrailMapState) :
  load (length pre) (world (pre ++ o :: post) c)
  = Some (o, world (pre ++ o :: post) c).
Proof. unfold load. simpl. now rewrite list_lookup_middle. Qed.

Lemma store_run (pre post : list Obj) (o o' : Obj) (c : TrailMapState) :
  store (length pre) o' (world (pre ++ o :: post) c)
  = Some (tt, world (pre ++ o' :: post) c).
Proof.
  unfold store. simpl. rewrite list_lookup_middle by reflexivity.
  rewrite <- (Nat.add_0_r (length pre)) at 1. now rewrite insert_app_r.
Qed.

Lemma replace_run (text word rep : jsstring) (lastIndex : nat)
    (pre post : list Obj) (c : TrailMapState) :
  replace text (length pre) rep
    (world (pre ++ RegExpObj (Literal word) true lastIndex :: post) c)
  = Some (replaceAll word rep text,
          world (pre ++ RegExpObj (Literal word) true 0 :: post) c).
Proof.
  unfold replace. rewrite (bind_run _ _ _ _ _ (load_run _ _ _ _)).
  now rewrite (bind_run _ _ _ _ _ (store_run _ _ _ _ _)).
Qed.

Lemma test_run (kw : jsstring) (lastIndex : nat) (pre post : list Obj)
    (c : TrailMapState) :
  test (length pre) kw
    (world (pre ++ RegExpObj SuffixAtEnd false lastIndex :: post) c)
  = Some (endsWithSuffix kw,
          world (pre ++ RegExpObj SuffixAtEnd false lastIndex :: post) c).
Proof. unfold test. now rewrite (bind_run _ _ _ _ _ (load_run _ _ _ _)). Qed.

Lemma arrayElems_run (elems : list jsstring) (pre post : list Obj)
    (c : TrailMapState) :
  arrayElems (length pre) (world (pre ++ ArrayObj elems :: post) c)
  = Some (elems, world (pre ++ ArrayObj elems :: post) c).
Proof.
  unfold arrayElems. now rewrite (bind_run _ _ _ _ _ (load_run _ _ _ _)).
Qed.

Lemma setAddTo_run (kw : jsstring) (elems : list jsstring)
    (pre post : list Obj) (c : TrailMapState) :
  setAddTo (length pre) kw (world (pre ++ SetObj elems :: post) c)
  = Some (tt, world (pre ++ SetObj (setAdd elems kw) :: post) c).
Proof.
  unfold setAddTo. rewrite (bind_run _ _ _ _ _ (load_run _ _ _ _)).
  apply store_run.
Qed.

Lemma forStopWords_run (words : list jsstring) (cleaned : jsstring)
    (h : list Obj) (c : TrailMapState) :
  forStopWords words cleaned (world h c)
  = Some (fold_left (fun cl word => replaceAll word (js " ") cl) words cleaned,
          world (h ++ List.map (fun word => RegExpObj (Literal word) true 0)
                               words) c).
Proof.
  revert cleaned h. induction words as [|word words IH]; intros cleaned h.
  - simpl. now rewrite app_nil_r.
  - cbn [forStopWords]. unfold newRegExp.
    rewrite (bind_run _ _ _ _ _ (alloc_run _ _ _)).
    rewrite (bind_run _ _ _ _ _ (replace_run _ _ _ _ _ [] _)).
    rewrite IH. simpl. now rewrite <- app_assoc.
Qed.

Lemma expandBody_run (kw : jsstring) (elems : list jsstring)
    (pre post : list Obj) (c : TrailMapState) :
  exists more,
    expandBody (length pre) kw (world (pre ++ SetObj elems :: post) c)
    = Some (tt, world (pre ++ SetObj (expandStep elems kw) :: post ++ more) c).
Proof.
  unfold expandBody, expandStep.
  rewrite (bind_run _ _ _ _ _ (setAddTo_run _ _ _ _ _)).
  destruct (3 <=? length kw)%nat; cbn [andb].
  - unfold newRegExp. rewrite (bind_run _ _ _ _ _ (alloc_run _ _ _)).
    rewrite (bind_run _ _ _ _ _ (test_run _ _ _ [] _)).
    exists [RegExpObj SuffixAtEnd false 0].
    rewrite <- app_assoc. cbn [app].
    destruct (endsWithSuffix kw); [|reflexivity].
    destruct (2 <=? length (slice_0_m1 kw))%nat; [|reflexivity].
    apply setAddTo_run.
  - exists []. now rewrite app_nil_r.
Qed.

Lemma forKeywords_run (baseKeywords : list jsstring) (elems : list jsstring)
    (pre post : list Obj) (c : TrailMapState) :
  exists more,
    forKeywords baseKeywords (length pre)
      (world (pre ++ SetObj elems :: post) c)
    = Some (tt, world (pre ++ SetObj (fold_left expandStep baseKeywords elems)
                           :: post ++ more) c).
Proof.
  revert elems post.
  induction baseKeywords as [|kw rest IH]; intros elems post.
  - exists []. simpl. now rewrite app_nil_r.
  - destruct (expandBody_run kw elems pre post c) as [more1 H1].
    destruct (IH (expandStep elems kw) (post ++ more1)) as [more2 H2].
    exists (more1 ++ more2). cbn [forKeywords].
    rewrite (bind_run _ _ _ _ _ H1), H2. simpl. now rewrite <- app_assoc.
Qed.

Lemma splitBy_run (text : jsstring) (global : bool) (lastIndex : nat)
    (pre : list Obj) (c : TrailMapState) :
  splitBy text (length pre)
    (world (pre ++ [RegExpObj SeparatorRun global lastIndex]) c)
  = Some (length (pre ++ [RegExpObj SeparatorRun global lastIndex]),
          world ((pre ++ [RegExpObj SeparatorRun global lastIndex])
                 ++ [ArrayObj (split text)]) c).
Proof.
  unfold splitBy. now rewrite (bind_run _ _ _ _ _ (load_run _ _ _ _)).
Qed.

Lemma arrayMap_run (f : jsstring -> jsstring) (elems : list jsstring)
    (pre : list Obj) (c : TrailMapState) :
  arrayMap f (length pre) (world (pre ++ [ArrayObj elems]) c)
  = Some (length (pre ++ [ArrayObj elems]),
          world ((pre ++ [ArrayObj elems]) ++ [ArrayObj (List.map f elems)]) c).
Proof.
  unfold arrayMap. now rewrite (bind_run _ _ _ _ _ (arrayElems_run _ _ _ _)).
Qed.

Lemma arrayFilter_run (p : jsstring -> bool) (elems : list jsstring)
    (pre : list Obj) (c : TrailMapState) :
  arrayFilter p (length pre) (world (pre ++ [ArrayObj elems]) c)
  = Some (length (pre ++ [ArrayObj elems]),
          world ((pre ++ [ArrayObj elems]) ++ [ArrayObj (List.filter p elems)])
                c).
Proof.
  unfold arrayFilter.
  now rewrite (bind_run _ _ _ _ _ (arrayElems_run _ _ _ _)).
Qed.

Lemma arrayElems_before (elems : list jsstring) (pre post : list Obj)
    (c : TrailMapState) :
  arrayElems (length pre) (world ((pre ++ [ArrayObj elems]) ++ post) c)
  = Some (elems, world ((pre ++ [ArrayObj elems]) ++ post) c).
Proof. rewrite <- app_assoc. apply arrayElems_run. Qed.

Lemma arrayFrom_run (elems : list jsstring) (pre post : list Obj)
    (c : TrailMapState) :
  arrayFrom (length pre) (world (pre ++ SetObj elems :: post) c)
  = Some (length (pre ++ SetObj elems :: post),
          world ((pre ++ SetObj elems :: post) ++ [ArrayObj elems]) c).
Proof.
  unfold arrayFrom. now rewrite (bind_run _ _ _ _ _ (load_run _ _ _ _)).
Qed.

Lemma arrayIncludes_run (x : jsstring) (elems : list jsstring)
    (pre post : list Obj) (c : TrailMapState) :
  arrayIncludes (length pre) x (world (pre ++ ArrayObj elems :: post) c)
  = Some (bool_decide (x ∈ elems), world (pre ++ ArrayObj elems :: post) c).
Proof.
  unfold arrayIncludes.
  now rewrite (bind_run _ _ _ _ _ (arrayElems_run _ _ _ _)).
Qed.

Lemma arrayPush_run (x : jsstring) (elems : list jsstring)
    (pre post : list Obj) (c : TrailMapState) :
  arrayPush (length pre) x (world (pre ++ ArrayObj elems :: post) c)
  = Some (tt, world (pre ++ ArrayObj (elems ++ [x]) :: post) c).
Proof.
  unfold arrayPush. rewrite (bind_run _ _ _ _ _ (arrayElems_run _ _ _ _)).
  apply store_run.
Qed.

(** A run from any world ends, returns the reference of a new array that
    holds the keywords, and only adds objects to the world. *)
Lemma extractCertKeywordsRun_spec (certPoint : option jsstring)
    (h : list Obj) (c : TrailMapState) :
  exists ref added,
    extractCertKeywordsRun certPoint (world h c)
    = Some (ref, world (h ++ added) c) /\
    (length h <= ref)%nat /\
    (h ++ added) !! ref = Some (ArrayObj (extractCertKeywords certPoint)).
Proof.
  unfold extractCertKeywordsRun.
  destruct (truthy certPoint) eqn:Ht; cbn [negb].
  2:{ exists (length h), [ArrayObj []]. rewrite (falsy_no_keywords _ Ht).
      repeat split; [lia|]. now rewrite list_lookup_middle. }
  destruct certPoint as [[|ch label]|]; try discriminate. clear Ht.
  cbn [orEmpty]. unfold newArray, newRegExp, newSet.
  rewrite (bind_run _ _ _ _ _ (alloc_run _ _ _)).
  rewrite (bind_run _ _ _ _ _ (arrayElems_run _ _ [] _)).
  rewrite (bind_run _ _ _ _ _ (forStopWords_run _ _ _ _)).
  fold (removeStopWords (ch :: label)).
  set (cleaned := removeStopWords (ch :: label)).
  set (h1 := (h ++ [ArrayObj stopWords]) ++ _).
  rewrite (bind_run _ _ _ _ _ (alloc_run _ _ _)).
  rewrite (bind_run _ _ _ _ _ (splitBy_run _ _ _ _ _)).
  set (h2 := h1 ++ [RegExpObj SeparatorRun false 0]).
  rewrite (bind_run _ _ _ _ _ (arrayMap_run _ _ _ _)).
  set (h3 := h2 ++ [ArrayObj (split cleaned)]).
  rewrite (bind_run _ _ _ _ _ (arrayFilter_run _ _ _ _)).
  fold (baseKeywords cleaned).
  set (h4 := h3 ++ [ArrayObj (List.map trim (split cleaned))]).
  rewrite (bind_run _ _ _ _ _ (alloc_run _ _ _)).
  rewrite (bind_run _ _ _ _ _ (arrayElems_before _ _ _ _)).
  set (h5 := h4 ++ [ArrayObj (baseKeywords cleaned)]).
  destruct (forKeywords_run (baseKeywords cleaned) [] h5 [] c) as [more Hloop].
  rewrite (bind_run _ _ _ _ _ Hloop). cbn [app].
  fold (expandKeywords (baseKeywords cleaned)).
  set (keywords := expandKeywords (baseKeywords cleaned)).
  rewrite (bind_run _ _ _ _ _ (arrayFrom_run _ _ _ _)).
  set (h6 := h5 ++ SetObj keywords :: more).
  rewrite (bind_run _ _ _ _ _ (arrayIncludes_run _ _ _ [] _)).
  assert (Hh6 : exists added6, h6 = h ++ added6).
  { unfold h6, h5, h4, h3, h2, h1. rewrite <- !app_assoc. eauto. }
  destruct Hh6 as [added6 Hh6].
  assert (Hlen : (length h <= length h6)%nat)
    by (rewrite Hh6, length_app; lia).
  unfold extractCertKeywords. fold cleaned. fold keywords.
  destruct (decide (summit ∈ keywords)) as [Hin|Hout].
  - rewrite (bool_decide_eq_true_2 _ Hin). unfold bind, ret.
    exists (length h6), (added6 ++ [ArrayObj keywords]).
    rewrite app_assoc, <- Hh6. repeat split; [exact Hlen|].
    now rewrite list_lookup_middle.
  - rewrite (bool_decide_eq_false_2 _ Hout).
    rewrite (bind_run _ _ _ _ _ (arrayPush_run _ _ _ [] _)). unfold ret.
    exists (length h6), (added6 ++ [ArrayObj (keywords ++ [summit])]).
    rewrite app_assoc, <- Hh6. repeat split; [exact Hlen|].
    now rewrite list_lookup_middle.
Qed.

(** A regular expression with the [g] flag that is kept between calls
    makes [test] depend on what happened before: the store can tell. *)
Example shared_global_test :
  (let! re := newRegExp SuffixAtEnd true in
   let! first := test re (js "천왕봉") in
   let! second := test re (js "천왕봉") in
   ret (first, second))
    (world [] initialState)
  = Some ((true, false), world [RegExpObj SuffixAtEnd true 0] initialState).
Proof. vm_compute. reflexivity. Qed.

End Store.

(** A run leaves the component and every object there was as they
    were. *)
Definition untouched (before after : Store.World) : Prop :=
  Store.component after = Store.component before /\
  forall ref o, Store.objects before !! ref = Some o ->
                Store.objects after !! ref = Some o.

(** C8. Extraction is deterministic and pure.  Run on the same label in
    two worlds, whatever their course data and whatever objects they
    hold (the second may be the world the first run left), it ends in
    both, leaves the component and all existing objects untouched, and
    returns two new arrays that hold the same keywords, those of the
    label. *)
Theorem extractCertKeywords_deterministic (label : option jsstring)
    (w1 w2 : Store.World) :
  exists ref1 w1' ref2 w2',
    Store.extractCertKeywordsRun label w1 = Some (ref1, w1') /\
    Store.extractCertKeywordsRun label w2 = Some (ref2, w2') /\
    Store.objects w1' !! ref1
    = Some (Store.ArrayObj (extractCertKeywords label)) /\
    Store.objects w2' !! ref2
    = Some (Store.ArrayObj (extractCertKeywords label)) /\
    untouched w1 w1' /\ untouched w2 w2' /\
    Store.objects w1 !! ref1 = None /\ Store.objects w2 !! ref2 = None.
Proof.
  destruct w1 as [h1 c1], w2 as [h2 c2].
  destruct (Store.extractCertKeywordsRun_spec label h1 c1)
    as [ref1 [added1 [Hrun1 [Hfresh1 Hres1]]]].
  destruct (Store.extractCertKeywordsRun_spec label h2 c2)
    as [ref2 [added2 [Hrun2 [Hfresh2 Hres2]]]].
  exists ref1, (Store.world (h1 ++ added1) c1),
         ref2, (Store.world (h2 ++ added2) c2).
  repeat split; try assumption; simpl.
  - intros ref o H. now apply lookup_app_l_Some.
  - intros ref o H. now apply lookup_app_l_Some.
  - now apply lookup_ge_None.
  - now apply lookup_ge_None.
Qed.
